(** * Key-visual label decorator: the TiDB schema refresh

    A shallow embedding of [pkg/keyvisual/decorator/tidb_requests.go]
    and the properties of its refresh cycle ([updateMap]) and of its two
    label builders ([updateTableMap], [updateTableMapByDBTableInfos]).

    The strategy object is a record, the lookup ([TableMap], a [sync.Map]
    in the source) a finite map from identifiers to label entries.  The
    collaborators (etcd, the TiDB status client, the JSON decoder) are the
    operations of a class over an abstract world; every call of the cycle
    that is visible from outside (an etcd read, a call of the identifier
    provider, a request, a store into the lookup) is recorded, in order,
    in the list of events a computation emits. *)

From Stdlib Require Import ZArith String Ascii List Lia DecimalString DecimalZ.
From stdpp Require Import gmap strings list fin_maps.

Local Open Scope Z_scope.

(** ** Go values *)

(** A Go call returning [(value, error)]: the value, or the text of the
    error ([err.Error()]). *)
Inductive result (A : Type) : Type :=
| Ok (a : A)
| Err (msg : string).
Arguments Ok {A} a.
Arguments Err {A} msg.

(** [strings.Contains]. *)
Fixpoint Contains (s substr : string) : bool :=
  if String.prefix substr s then true
  else match s with
       | EmptyString => false
       | String _ rest => Contains rest substr
       end.

(** [strings.Join]. *)
Fixpoint Join (elems : list string) (sep : string) : string :=
  match elems with
  | [] => EmptyString
  | [e] => e
  | e :: rest => e +:+ sep +:+ Join rest sep
  end.

(** [strconv.FormatInt(i, 10)]. *)
Definition FormatInt (i : Z) : string := NilEmpty.string_of_int (Z.to_int i).

Definition isDigit (c : ascii) : bool :=
  ((48 <=? nat_of_ascii c) && (nat_of_ascii c <=? 57))%nat.

Fixpoint parseDigits (s : string) (acc : Z) : option Z :=
  match s with
  | EmptyString => Some acc
  | String c rest =>
      if isDigit c
      then parseDigits rest (10 * acc + (Z.of_nat (nat_of_ascii c) - 48))
      else None
  end.

(** [strconv.ParseInt(s, 10, 64)]: an optional sign, then one decimal
    digit or more, the value within the range of [int64]; [None] for Go's
    syntax and range errors. *)
Definition ParseInt (s : string) : option Z :=
  match s with
  | EmptyString => None
  | String c rest =>
      let neg := Ascii.eqb c "-"%char in
      let body := if Ascii.eqb c "+"%char || neg then rest else s in
      match body with
      | EmptyString => None
      | _ =>
          match parseDigits body 0 with
          | None => None
          | Some un =>
              if neg
              then (if (un <=? 2 ^ 63)%Z then Some (- un) else None)
              else (if (un <? 2 ^ 63)%Z then Some un else None)
          end
      end
  end.

(** ** The schema model ([pkg/tidb/model]) and the label entry *)

Module CIStr.
Record t := mk { O : string }.
End CIStr.

Module model.

(** Modelled from the spec: the declaration of [model.SchemaState] is not
    part of the source file; [StateNone] is the absent (dropped) lifecycle
    state, the other constructors are the remaining states of a schema
    object. *)
Inductive SchemaState :=
| StateNone
| StateDeleteOnly
| StateWriteOnly
| StateWriteReorganization
| StateDeleteReorganization
| StatePublic.

End model.

#[global] Instance SchemaState_eq_dec : EqDecision model.SchemaState.
Proof. solve_decision. Defined.

Module IndexInfo.
Record t := mk { ID : Z; Name : CIStr.t }.
End IndexInfo.

Module PartitionDefinition.
Record t := mk { ID : Z; Name : CIStr.t }.
End PartitionDefinition.

Module PartitionInfo.
Record t := mk { Definitions : list PartitionDefinition.t }.
End PartitionInfo.

Module TableInfo.
Record t := mk {
  ID : Z;
  Name : CIStr.t;
  Indices : list IndexInfo.t;
  Partition : option PartitionInfo.t
}.

(** Modelled from the spec: [TableInfo.GetPartitionInfo] is declared
    outside the source file; a table description carries an optional
    partition list, and the method returns it ([None] for Go's nil). *)
Definition GetPartitionInfo (table : t) : option PartitionInfo.t :=
  Partition table.
End TableInfo.

Module DBInfo.
Record t := mk { Name : CIStr.t; State : model.SchemaState }.
End DBInfo.

Module DBTableInfo.
Record t := mk { DBInfo : DBInfo.t; TableInfo : TableInfo.t }.
End DBTableInfo.

Module tableDetail.
Record t := mk {
  Name : string;
  DB : string;
  ID : Z;
  Indices : gmap Z string
}.
End tableDetail.

Module KeyValue.
Record t := mk { Key : string; Value : string }.
End KeyValue.

Module GetResponse.
Record t := mk { Kvs : list KeyValue.t }.
End GetResponse.

(** ** Constants *)

Definition schemaVersionPath : string := "/tidb/ddl/global_schema_version".
Definition tableInfosBatchSize : nat := 512.

(** ** Collaborators *)

(** The outside of the strategy, over a world [W] that every call may
    change: the etcd client, the TiDB status client, and the pure library
    functions the source calls and this file does not define.  A decoded
    Go map is the list of its bindings in the order [range] visits them. *)
Class Cluster (W : Type) := {
  EtcdClient_Get : string -> W -> result GetResponse.t * W;
  tidbClient_SendGetRequest : string -> W -> result string * W;
  Unmarshal_DBTableInfos : string -> result (list (Z * DBTableInfo.t));
  Unmarshal_DBInfos : string -> result (list DBInfo.t);
  Unmarshal_TableInfos : string -> result (list TableInfo.t);
  PathEscape : string -> string;
  ErrInvalidData_Wrap : string -> string
}.

(** What a cycle does that can be seen from outside.  [EvRequest] is one
    call of [request]: the path, what the transport returned, and the
    error [request] returned ([None] for nil). *)
Inductive Event :=
| EvEtcdGet (key : string)
| EvGetTableIDs
| EvRequest (path : string) (raw : result string) (err : option string)
| EvStore (id : Z) (detail : tableDetail.t).

Section Strategy.
Context {W : Type} `{Cluster W}.

(** The fields of [tidbLabelStrategy] the refresh reads and writes.
    [getTableIDs] is [None] for a nil provider; a provider returns the set
    of known identifiers as the list of its members in [range] order. *)
Record tidbLabelStrategy := mkStrategy {
  getTableIDs : option (W -> list Z * W);
  SchemaVersion : Z;
  dbTableInfosEndpointNotFound : bool;
  TableMap : gmap Z tableDetail.t
}.

Record System := mkSystem {
  strategy : tidbLabelStrategy;
  world : W
}.

(** *** A state monad that logs events *)

Definition M (A : Type) : Type := System -> A * System * list Event.

Definition ret {A} (a : A) : M A := fun s => (a, s, []).

Definition bind {A B} (m : M A) (f : A -> M B) : M B :=
  fun s =>
    let '(a, s1, t1) := m s in
    let '(b, s2, t2) := f a s1 in
    (b, s2, t1 ++ t2).

(** The three components of a run. *)
Definition value {A} (r : A * System * list Event) : A := fst (fst r).
Definition final {A} (r : A * System * list Event) : System := snd (fst r).
Definition events {A} (r : A * System * list Event) : list Event := snd r.

End Strategy.

Arguments tidbLabelStrategy W : clear implicits.
Arguments System W : clear implicits.
Arguments M W A : clear implicits.
Arguments value {W A} r : simpl never.
Arguments final {W A} r : simpl never.
Arguments events {W A} r : simpl never.

Declare Scope go_scope.
Delimit Scope go_scope with go.
Notation "x <- c1 ;; c2" := (bind c1 (fun x => c2))
  (at level 100, c1 at next level, right associativity) : go_scope.
Notation "c1 ;;; c2" := (bind c1 (fun _ => c2))
  (at level 100, right associativity) : go_scope.
Local Open Scope go_scope.

Section Refresh.
Context {W : Type} `{Cluster W}.

(** *** Primitive steps *)

Definition getStrategy : M W (tidbLabelStrategy W) :=
  fun s => (strategy s, s, []).

(** [s.SchemaVersion = schemaVersion] *)
Definition setSchemaVersion (schemaVersion : Z) : M W unit :=
  fun s =>
    let st := strategy s in
    (tt,
     mkSystem (mkStrategy (getTableIDs st) schemaVersion
                 (dbTableInfosEndpointNotFound st) (TableMap st)) (world s),
     []).

(** [s.dbTableInfosEndpointNotFound = true] *)
Definition setEndpointNotFound : M W unit :=
  fun s =>
    let st := strategy s in
    (tt,
     mkSystem (mkStrategy (getTableIDs st) (SchemaVersion st) true (TableMap st))
       (world s),
     []).

(** [s.TableMap.Store(id, detail)] *)
Definition Store (id : Z) (detail : tableDetail.t) : M W unit :=
  fun s =>
    let st := strategy s in
    (tt,
     mkSystem (mkStrategy (getTableIDs st) (SchemaVersion st)
                 (dbTableInfosEndpointNotFound st)
                 (<[id := detail]> (TableMap st))) (world s),
     [EvStore id detail]).

(** [s.EtcdClient.Get(ectx, key)] *)
Definition EtcdGet (key : string) : M W (result GetResponse.t) :=
  fun s =>
    let '(r, w) := EtcdClient_Get key (world s) in
    (r, mkSystem (strategy s) w, [EvEtcdGet key]).

(** [s.getTableIDs()] for a provider that is not nil *)
Definition callGetTableIDs (provider : W -> list Z * W) : M W (list Z) :=
  fun s =>
    let '(ids, w) := provider (world s) in
    (ids, mkSystem (strategy s) w, [EvGetTableIDs]).

Definition errorOf {T} (r : result T) : option string :=
  match r with
  | Ok _ => None
  | Err e => Some e
  end.

(** [request]: the GET, then the decoding of the body into the value the
    caller asked for; a body that does not decode is an [ErrInvalidData]
    wrapping the decoder's error. *)
Definition request {T} (unmarshal : string -> result T) (path : string)
  : M W (result T) :=
  fun s =>
    let '(raw, w) := tidbClient_SendGetRequest path (world s) in
    let r := match raw with
             | Err e => Err e
             | Ok data =>
                 match unmarshal data with
                 | Err e => Err (ErrInvalidData_Wrap e)
                 | Ok v => Ok v
                 end
             end in
    (r, mkSystem (strategy s) w, [EvRequest path raw (errorOf r)]).

(** A [for _, x := range l] loop whose body neither breaks nor returns. *)
Fixpoint forEach {A} (l : list A) (body : A -> M W unit) : M W unit :=
  match l with
  | [] => ret tt
  | x :: rest => body x ;;; forEach rest body
  end.

(** *** The label builders *)

(** The index-name mapping of a table: [indices[index.ID] = index.Name.O]
    for each index in turn. *)
Definition indexNames (indices : list IndexInfo.t) : gmap Z string :=
  foldl (fun m index =>
           <[IndexInfo.ID index := CIStr.O (IndexInfo.Name index)]> m)
    ∅ indices.

Definition updateTableMap (dbname : string) (tableInfos : list TableInfo.t)
  : M W unit :=
  match tableInfos with
  | [] => ret tt
  | _ =>
    forEach tableInfos (fun table =>
      let indices := indexNames (TableInfo.Indices table) in
      let detail :=
        tableDetail.mk (CIStr.O (TableInfo.Name table)) dbname
          (TableInfo.ID table) indices in
      Store (TableInfo.ID table) detail ;;;
      match TableInfo.GetPartitionInfo table with
      | Some partition =>
        forEach (PartitionInfo.Definitions partition) (fun partitionDef =>
          let detail :=
            tableDetail.mk
              (CIStr.O (TableInfo.Name table) +:+ "/" +:+
               CIStr.O (PartitionDefinition.Name partitionDef))
              dbname (PartitionDefinition.ID partitionDef) indices in
          Store (PartitionDefinition.ID partitionDef) detail)
      | None => ret tt
      end)
  end.

Definition updateTableMapByDBTableInfos
  (dbTableInfos : list (Z * DBTableInfo.t)) : M W unit :=
  match dbTableInfos with
  | [] => ret tt
  | _ =>
    forEach dbTableInfos (fun '(_, dbTable) =>
      let indices :=
        indexNames (TableInfo.Indices (DBTableInfo.TableInfo dbTable)) in
      let detail :=
        tableDetail.mk
          (CIStr.O (TableInfo.Name (DBTableInfo.TableInfo dbTable)))
          (CIStr.O (DBInfo.Name (DBTableInfo.DBInfo dbTable)))
          (TableInfo.ID (DBTableInfo.TableInfo dbTable)) indices in
      Store (TableInfo.ID (DBTableInfo.TableInfo dbTable)) detail ;;;
      match TableInfo.GetPartitionInfo (DBTableInfo.TableInfo dbTable) with
      | Some partition =>
        forEach (PartitionInfo.Definitions partition) (fun partitionDef =>
          let detail :=
            tableDetail.mk
              (CIStr.O (TableInfo.Name (DBTableInfo.TableInfo dbTable))
               +:+ "/" +:+
               CIStr.O (PartitionDefinition.Name partitionDef))
              (CIStr.O (DBInfo.Name (DBTableInfo.DBInfo dbTable)))
              (PartitionDefinition.ID partitionDef) indices in
          Store (PartitionDefinition.ID partitionDef) detail)
      | None => ret tt
      end)
  end.

(** *** The refresh cycle *)

(** Lines 69-83: the identifiers, in [range] order, are appended to the
    current batch; a batch that reaches [tableInfosBatchSize] is closed. *)
Fixpoint fillBatches (tableIDs : list Z) (tableIDBatches : list (list string))
  (batch : list string) (n : nat) : list (list string) * list string :=
  match tableIDs with
  | [] => (tableIDBatches, batch)
  | id :: rest =>
      let batch := batch ++ [FormatInt id] in
      let n := S n in
      if Nat.eqb n tableInfosBatchSize
      then fillBatches rest (tableIDBatches ++ [batch]) [] 0%nat
      else fillBatches rest tableIDBatches batch n
  end.

Definition makeBatches (tableIDs : list Z) : list (list string) :=
  let '(tableIDBatches, batch) := fillBatches tableIDs [] [] 0%nat in
  if Nat.ltb 0 (length batch) then tableIDBatches ++ [batch]
  else tableIDBatches.

Definition dbTablePath (batch : list string) : string :=
  "/db-table?table_ids=" +:+ Join batch ",".

(** Lines 84-97: one request per batch; the first failure ends the loop
    with [updateSuccess = false], a failure whose text contains 404 sets
    the capability flag first. The result is [updateSuccess]. *)
Fixpoint requestBatches (tableIDBatches : list (list string)) : M W bool :=
  match tableIDBatches with
  | [] => ret true
  | batch :: rest =>
      r <- request Unmarshal_DBTableInfos (dbTablePath batch) ;;
      match r with
      | Err err =>
          (if Contains err "404" then setEndpointNotFound else ret tt) ;;;
          ret false
      | Ok dbTableInfos =>
          updateTableMapByDBTableInfos dbTableInfos ;;;
          requestBatches rest
      end
  end.

Definition schemaDBPath (name : string) : string :=
  "/schema/" +:+ PathEscape name.

(** Lines 113-126: the table list of every database not in [StateNone];
    a failed request clears [updateSuccess] and the loop goes on. The
    result is [updateSuccess]. *)
Fixpoint scanDatabases (dbInfos : list DBInfo.t) (updateSuccess : bool)
  : M W bool :=
  match dbInfos with
  | [] => ret updateSuccess
  | db :: rest =>
      if decide (DBInfo.State db = model.StateNone)
      then scanDatabases rest updateSuccess
      else
        r <- request Unmarshal_TableInfos
               (schemaDBPath (CIStr.O (DBInfo.Name db))) ;;
        match r with
        | Err _ => scanDatabases rest false
        | Ok tableInfos =>
            updateTableMap (CIStr.O (DBInfo.Name db)) tableInfos ;;;
            scanDatabases rest updateSuccess
        end
  end.

(** Lines 105-131: the full scan. *)
Definition fullScan (schemaVersion : Z) : M W unit :=
  r <- request Unmarshal_DBInfos "/schema" ;;
  match r with
  | Err _ => ret tt
  | Ok dbInfos =>
      updateSuccess <- scanDatabases dbInfos true ;;
      if (updateSuccess : bool) then setSchemaVersion schemaVersion else ret tt
  end.

(** Lines 63-103: the batched attempt. The result tells whether
    [updateMap] has returned ([true]) or goes on to the full scan. *)
Definition batchAttempt (schemaVersion : Z) : M W bool :=
  s <- getStrategy ;;
  match getTableIDs s with
  | Some provider =>
      if negb (dbTableInfosEndpointNotFound s) then
        tableIDs <- callGetTableIDs provider ;;
        if Nat.eqb (length tableIDs) 0 then ret true
        else
          updateSuccess <- requestBatches (makeBatches tableIDs) ;;
          if (updateSuccess : bool)
          then setSchemaVersion schemaVersion ;;; ret true
          else ret false
      else ret false
  | None => ret false
  end.

Definition updateMap : M W unit :=
  r <- EtcdGet schemaVersionPath ;;
  match r with
  | Err _ => ret tt
  | Ok resp =>
      match GetResponse.Kvs resp with
      | [kv] =>
          match ParseInt (KeyValue.Value kv) with
          | None => ret tt
          | Some schemaVersion =>
              s <- getStrategy ;;
              if (schemaVersion =? SchemaVersion s)%Z then ret tt
              else
                returned <- batchAttempt schemaVersion ;;
                if (returned : bool) then ret tt
                else fullScan schemaVersion
          end
      | _ => ret tt
      end
  end.

End Refresh.

(** ** Reading a trace *)

(** A request sent to the combined endpoint, or to the schema endpoints. *)
Definition isBatchRequest (e : Event) : bool :=
  match e with
  | EvRequest path _ _ => String.prefix "/db-table" path
  | _ => false
  end.

Definition isScanRequest (e : Event) : bool :=
  match e with
  | EvRequest path _ _ => String.prefix "/schema" path
  | _ => false
  end.

Definition isRequest (e : Event) : bool :=
  match e with
  | EvRequest _ _ _ => true
  | _ => false
  end.

Definition isStore (e : Event) : bool :=
  match e with
  | EvStore _ _ => true
  | _ => false
  end.

(** No request of the trace returned an error. *)
Definition allOk (evs : list Event) : bool :=
  forallb (fun e => match e with
                    | EvRequest _ _ (Some _) => false
                    | _ => true
                    end) evs.

(** The test of line 88 held in the trace: a request to the combined
    endpoint returned an error whose text contains 404, be it the error of
    the transport or the wrapped error of decoding the body. *)
Definition returned404 (evs : list Event) : bool :=
  existsb (fun e => match e with
                    | EvRequest path _ (Some err) =>
                        String.prefix "/db-table" path && Contains err "404"
                    | _ => false
                    end) evs.

(** The not-found signal of the transport: the transport answered a
    request to the combined endpoint with an error whose text contains
    404. *)
Definition transportNotFound (evs : list Event) : bool :=
  existsb (fun e => match e with
                    | EvRequest path (Err msg) _ =>
                        String.prefix "/db-table" path && Contains msg "404"
                    | _ => false
                    end) evs.

(** The transport answered a request to the combined endpoint with a body,
    and the request returned an error, that of decoding the body, whose
    text contains 404. *)
Definition decodeNotFound (evs : list Event) : bool :=
  existsb (fun e => match e with
                    | EvRequest path (Ok _) (Some err) =>
                        String.prefix "/db-table" path && Contains err "404"
                    | _ => false
                    end) evs.

(** No answer of the transport in the trace is an error. *)
Definition transportAnswered (evs : list Event) : bool :=
  forallb (fun e => match e with
                    | EvRequest _ (Err _) _ => false
                    | _ => true
                    end) evs.

(** A request event as [request] emits it: the error of the transport is
    the error returned. *)
Definition coherent (e : Event) : Prop :=
  match e with
  | EvRequest _ (Err msg) err => err = Some msg
  | _ => True
  end.

(** A fetch strategy fully succeeded: it sent requests, and none of them
    returned an error. *)
Definition succeeded (reqs : list Event) : bool :=
  match reqs with
  | [] => false
  | _ => allOk reqs
  end.

(** The paths requested, in order. *)
Definition requestPaths (evs : list Event) : list string :=
  omap (fun e => match e with
                 | EvRequest path _ _ => Some path
                 | _ => None
                 end) evs.

(** The lookup after the stores of a trace, in order. *)
Definition replay (evs : list Event) (m : gmap Z tableDetail.t)
  : gmap Z tableDetail.t :=
  foldl (fun m e => match e with
                    | EvStore id detail => <[id := detail]> m
                    | _ => m
                    end) m evs.

(** The entries the label builder is to store for a table: the entry of
    the table itself and the entry of one of its partitions. *)
Definition tableEntry (dbname : string) (table : TableInfo.t) : tableDetail.t :=
  {| tableDetail.Name := CIStr.O (TableInfo.Name table);
     tableDetail.DB := dbname;
     tableDetail.ID := TableInfo.ID table;
     tableDetail.Indices := indexNames (TableInfo.Indices table) |}.

Definition partitionEntry (dbname : string) (table : TableInfo.t)
  (partitionDef : PartitionDefinition.t) : tableDetail.t :=
  {| tableDetail.Name :=
       CIStr.O (TableInfo.Name table) +:+ "/" +:+
       CIStr.O (PartitionDefinition.Name partitionDef);
     tableDetail.DB := dbname;
     tableDetail.ID := PartitionDefinition.ID partitionDef;
     tableDetail.Indices := indexNames (TableInfo.Indices table) |}.

Definition tableStores (dbname : string) (table : TableInfo.t) : list Event :=
  EvStore (TableInfo.ID table) (tableEntry dbname table) ::
  match TableInfo.GetPartitionInfo table with
  | Some partition =>
      map (fun def => EvStore (PartitionDefinition.ID def)
                        (partitionEntry dbname table def))
        (PartitionInfo.Definitions partition)
  | None => []
  end.

(** The stores of the builder of the batched path. *)
Definition dbTableStores (dbTableInfos : list (Z * DBTableInfo.t))
  : list Event :=
  flat_map (fun kv =>
              tableStores (CIStr.O (DBInfo.Name (DBTableInfo.DBInfo kv.2)))
                (DBTableInfo.TableInfo kv.2))
    dbTableInfos.

(** The errors the requests of a trace returned, in order. *)
Definition requestErrors (evs : list Event) : list (option string) :=
  omap (fun e => match e with
                 | EvRequest _ _ err => Some err
                 | _ => None
                 end) evs.

(** The identifiers of a table description: its own and its partitions'. *)
Definition tableIdents (table : TableInfo.t) : list Z :=
  TableInfo.ID table ::
  match TableInfo.GetPartitionInfo table with
  | Some partition =>
      map PartitionDefinition.ID (PartitionInfo.Definitions partition)
  | None => []
  end.

(** The identifier [k] occurs in a description fetched in the trace: a
    request of the trace was answered with a body that decodes to a list of
    table descriptions, or of combined descriptions, one of which has [k]
    among its identifiers. *)
Definition fetched {W : Type} `{Cluster W} (evs : list Event) (k : Z) : Prop :=
  exists path data err,
    In (EvRequest path (Ok data) err) evs /\
    ((exists tableInfos table,
        Unmarshal_TableInfos data = Ok tableInfos /\
        In table tableInfos /\ In k (tableIdents table)) \/
     (exists dbTableInfos kv,
        Unmarshal_DBTableInfos data = Ok dbTableInfos /\
        In kv dbTableInfos /\
        In k (tableIdents (DBTableInfo.TableInfo kv.2)))).

(** Every store of the trace is keyed by the identifier of the entry it
    stores, and that identifier occurs in a description fetched earlier in
    the trace. *)
Definition justified {W : Type} `{Cluster W} (evs : list Event) : Prop :=
  forall before k d after,
    evs = before ++ EvStore k d :: after ->
    k = tableDetail.ID d /\ fetched before k.

(** The same, event by event, for a trace that follows the events [seen]. *)
Fixpoint justifiedFrom {W : Type} `{Cluster W} (seen evs : list Event) : Prop :=
  match evs with
  | [] => True
  | e :: rest =>
      match e with
      | EvStore k d => k = tableDetail.ID d /\ fetched seen k
      | _ => True
      end /\ justifiedFrom (seen ++ [e]) rest
  end.

(** [n] refresh cycles in a row: the final system and all the events. *)
Fixpoint cycles {W : Type} `{Cluster W} (n : nat) (s : System W)
  : System W * list Event :=
  match n with
  | O => (s, [])
  | S n' =>
      let r := updateMap s in
      let '(s', evs) := cycles n' (final r) in
      (s', events r ++ evs)
  end.

(** What the version check of a cycle yields from the answer of etcd. *)
Definition checkedVersion (r : result GetResponse.t) : option Z :=
  match r with
  | Err _ => None
  | Ok resp =>
      match GetResponse.Kvs resp with
      | [kv] => ParseInt (KeyValue.Value kv)
      | _ => None
      end
  end.

Definition fetchedVersion {W : Type} `{Cluster W} (s : System W) : option Z :=
  checkedVersion (fst (EtcdClient_Get schemaVersionPath (world s))).

(** The system with another lookup. *)
Definition withTableMap {W : Type} (s : System W) (m : gmap Z tableDetail.t)
  : System W :=
  mkSystem
    (mkStrategy (getTableIDs (strategy s)) (SchemaVersion (strategy s))
       (dbTableInfosEndpointNotFound (strategy s)) m)
    (world s).

(** What the builders and the request loops may change of a strategy:
    the lookup, by the stores of the trace, and the capability flag, set
    when the test of line 88 holds in the trace; nothing else. *)
Definition evolves {W : Type} (st : tidbLabelStrategy W) (evs : list Event)
  (st' : tidbLabelStrategy W) : Prop :=
  getTableIDs st' = getTableIDs st /\
  SchemaVersion st' = SchemaVersion st /\
  TableMap st' = replay evs (TableMap st) /\
  dbTableInfosEndpointNotFound st' =
    dbTableInfosEndpointNotFound st || returned404 evs.

(** A computation that does nothing but the stores [evs]. *)
Definition performs {W : Type} (m : M W unit) (evs : list Event) : Prop :=
  forall s,
    m s = (tt, withTableMap s (replay evs (TableMap (strategy s))), evs).

(** The entry last stored under [k] in a trace, if any. *)
Fixpoint lastStore (k : Z) (evs : list Event) : option tableDetail.t :=
  match evs with
  | [] => None
  | e :: rest =>
      match lastStore k rest with
      | Some d => Some d
      | None =>
          match e with
          | EvStore id d => if decide (id = k) then Some d else None
          | _ => None
          end
      end
  end.

Definition isEtcdGet (e : Event) : bool :=
  match e with
  | EvEtcdGet _ => true
  | _ => false
  end.

Definition isProviderCall (e : Event) : bool :=
  match e with
  | EvGetTableIDs => true
  | _ => false
  end.

(** The identifiers of the descriptions of a decoded [/db-table] answer. *)
Definition dbTableIdents (dbTableInfos : list (Z * DBTableInfo.t)) : list Z :=
  flat_map (fun kv => tableIdents (DBTableInfo.TableInfo kv.2)) dbTableInfos.

(** The identifiers a trace stores under, in order. *)
Definition storeKeys (evs : list Event) : list Z :=
  omap (fun e => match e with
                 | EvStore k _ => Some k
                 | _ => None
                 end) evs.


(** What a server reads back from the identifier list of a path: the
    pieces between the commas. *)
Fixpoint Split (str : string) : list string :=
  match str with
  | EmptyString => [EmptyString]
  | String c rest =>
      if Ascii.eqb c ","%char then EmptyString :: Split rest
      else match Split rest with
           | piece :: pieces => String c piece :: pieces
           | [] => [String c EmptyString]
           end
  end.

Fixpoint noComma (str : string) : bool :=
  match str with
  | EmptyString => true
  | String c rest => negb (Ascii.eqb c ","%char) && noComma rest
  end.

(** ** A test cluster *)

Module Demo.

Definition ordersTable : TableInfo.t :=
  {| TableInfo.ID := 100;
     TableInfo.Name := CIStr.mk "orders";
     TableInfo.Indices :=
       [IndexInfo.mk 1 (CIStr.mk "idx_user"); IndexInfo.mk 2 (CIStr.mk "idx_day")];
     TableInfo.Partition :=
       Some (PartitionInfo.mk
               [PartitionDefinition.mk 101 (CIStr.mk "p0");
                PartitionDefinition.mk 102 (CIStr.mk "p1")]) |}.

Definition usersTable : TableInfo.t :=
  {| TableInfo.ID := 200;
     TableInfo.Name := CIStr.mk "users";
     TableInfo.Indices := [IndexInfo.mk 1 (CIStr.mk "PRIMARY")];
     TableInfo.Partition := None |}.

Definition shopDB : DBInfo.t := DBInfo.mk (CIStr.mk "shop") model.StatePublic.
Definition goneDB : DBInfo.t := DBInfo.mk (CIStr.mk "gone") model.StateNone.
Definition authDB : DBInfo.t := DBInfo.mk (CIStr.mk "auth") model.StatePublic.

Definition syntaxError {A} : result A := Err "invalid character".

(** A cluster over a clock that ticks at every etcd read: [etcd] is the
    answer of etcd and [serve] the answer of the status client at a given
    time. The decoders know a handful of bodies. *)
Definition cluster (etcd : nat -> result GetResponse.t)
  (serve : nat -> string -> result string) : Cluster nat :=
  {| EtcdClient_Get := fun _ w => (etcd w, S w);
     tidbClient_SendGetRequest := fun path w => (serve w path, w);
     Unmarshal_DBTableInfos := fun data =>
       if String.eqb data "orders@shop"
       then Ok [(0, DBTableInfo.mk shopDB ordersTable)]
       else syntaxError;
     Unmarshal_DBInfos := fun data =>
       if String.eqb data "shop,gone,auth" then Ok [shopDB; goneDB; authDB]
       else syntaxError;
     Unmarshal_TableInfos := fun data =>
       if String.eqb data "orders" then Ok [ordersTable]
       else if String.eqb data "users" then Ok [usersTable]
       else syntaxError;
     PathEscape := fun name => name;
     ErrInvalidData_Wrap := fun cause =>
       "error.keyvisual.decorator.invalid_data: schema API unmarshal failed, cause: "
       +:+ cause |}.

(** etcd holding the schema version [v]. *)
Definition version (v : string) : result GetResponse.t :=
  Ok (GetResponse.mk [KeyValue.mk schemaVersionPath v]).

(** A status server on which every endpoint answers. *)
Definition healthy (path : string) : result string :=
  if String.prefix "/db-table" path then Ok "orders@shop"
  else if String.eqb path "/schema" then Ok "shop,gone,auth"
  else if String.eqb path "/schema/shop" then Ok "orders"
  else if String.eqb path "/schema/auth" then Ok "users"
  else Err "500 Internal Server Error".

(** A status server without the combined endpoint. *)
Definition legacy (path : string) : result string :=
  if String.prefix "/db-table" path then Err "404 page not found"
  else healthy path.

(** A strategy that has never refreshed. *)
Definition fresh (provider : option (nat -> list Z * nat))
  : tidbLabelStrategy nat :=
  mkStrategy provider (-1) false ∅.

Definition knows (ids : list Z) : option (nat -> list Z * nat) :=
  Some (fun w => (ids, w)).

(** A status server whose combined endpoint is busy. *)
Definition busy (path : string) : result string :=
  if String.prefix "/db-table" path then Err "503 Service Unavailable"
  else healthy path.

(** A status server that fails on the second batch of [ids517]. *)
Definition flaky (path : string) : result string :=
  if String.eqb path "/db-table?table_ids=512,513,514,515,516"
  then Err "500 Internal Server Error"
  else healthy path.

(** A status server that fails on the table list of [shop]. *)
Definition partial (path : string) : result string :=
  if String.eqb path "/schema/shop" then Err "500 Internal Server Error"
  else healthy path.

(** A status server that is down. *)
Definition down (path : string) : result string :=
  Err "connection refused".

(** A cluster whose only database is dropped. *)
Definition ghostCluster : Cluster nat :=
  {| EtcdClient_Get := fun _ w => (version "7", S w);
     tidbClient_SendGetRequest := fun path w => (healthy path, w);
     Unmarshal_DBTableInfos := fun _ => syntaxError;
     Unmarshal_DBInfos := fun _ => Ok [goneDB];
     Unmarshal_TableInfos := fun _ => syntaxError;
     PathEscape := fun name => name;
     ErrInvalidData_Wrap := fun cause => cause |}.

(** A cluster whose combined endpoint answers with a body that does not
    decode, the decoder complaining about the number 404 in it. *)
Definition garbledCluster : Cluster nat :=
  {| EtcdClient_Get := fun _ w => (version "7", S w);
     tidbClient_SendGetRequest := fun path w => (healthy path, w);
     Unmarshal_DBTableInfos := fun _ =>
       Err "json: cannot unmarshal number 404 into Go value";
     Unmarshal_DBInfos := fun _ => Ok [goneDB];
     Unmarshal_TableInfos := fun _ => syntaxError;
     PathEscape := fun name => name;
     ErrInvalidData_Wrap := fun cause =>
       "schema API unmarshal failed, cause: " +:+ cause |}.

(** The identifiers 0 to 516. *)
Definition ids517 : list Z := map Z.of_nat (seq 0 517).

(** etcd holding, at time [w], the schema version [w + 10]. *)
Definition ticking (w : nat) : result GetResponse.t :=
  version (FormatInt (Z.of_nat w + 10)).

Definition steady : nat -> result GetResponse.t := fun _ => version "7".

(** The clusters of the examples. *)
Definition healthyCluster : Cluster nat := cluster steady (fun _ => healthy).
Definition legacyCluster : Cluster nat := cluster ticking (fun _ => legacy).
Definition busyCluster : Cluster nat := cluster steady (fun _ => busy).
Definition flakyCluster : Cluster nat := cluster steady (fun _ => flaky).
Definition partialCluster : Cluster nat := cluster steady (fun _ => partial).
Definition downCluster : Cluster nat := cluster steady (fun _ => down).

(** First-ever refreshes: with 517 known identifiers, with an empty set,
    with no provider. *)
Definition first517 : System nat := mkSystem (fresh (knows ids517)) 0%nat.
Definition firstBare : System nat := mkSystem (fresh None) 0%nat.

(** A strategy that has learnt that the combined endpoint is missing. *)
Definition learnt : System nat :=
  mkSystem (mkStrategy (knows ids517) 3 true ∅) 0%nat.

End Demo.

(** ** The monad *)

Section Facts.
Context {W : Type} `{Cluster W}.
Implicit Types (s : System W) (evs : list Event).

Lemma bind_run {A B} (m : M W A) (f : A -> M W B) s :
  bind m f s =
  (value (f (value (m s)) (final (m s))),
   final (f (value (m s)) (final (m s))),
   events (m s) ++ events (f (value (m s)) (final (m s)))).
Proof.
  unfold bind, value, final, events.
  destruct (m s) as [[a s1] t1]; simpl.
  destruct (f a s1) as [[b s2] t2]; reflexivity.
Qed.

Lemma value_bind {A B} (m : M W A) (f : A -> M W B) s :
  value (bind m f s) = value (f (value (m s)) (final (m s))).
Proof. rewrite bind_run; reflexivity. Qed.

Lemma final_bind {A B} (m : M W A) (f : A -> M W B) s :
  final (bind m f s) = final (f (value (m s)) (final (m s))).
Proof. rewrite bind_run; reflexivity. Qed.

Lemma events_bind {A B} (m : M W A) (f : A -> M W B) s :
  events (bind m f s) =
  events (m s) ++ events (f (value (m s)) (final (m s))).
Proof. rewrite bind_run; reflexivity. Qed.

Lemma value_mk {A} (a : A) s evs : value (a, s, evs) = a.
Proof. reflexivity. Qed.

Lemma final_mk {A} (a : A) s evs : final (a, s, evs) = s.
Proof. reflexivity. Qed.

Lemma events_mk {A} (a : A) s evs : events (a, s, evs) = evs.
Proof. reflexivity. Qed.

Lemma run_eta {A} (r : A * System W * list Event) :
  r = (value r, final r, events r).
Proof. destruct r as [[a s] t]; reflexivity. Qed.

Lemma replay_app evs1 evs2 (m : gmap Z tableDetail.t) :
  replay (evs1 ++ evs2) m = replay evs2 (replay evs1 m).
Proof. apply foldl_app. Qed.

Lemma withTableMap_id s : withTableMap s (TableMap (strategy s)) = s.
Proof. destruct s as [[g v f m] w]; reflexivity. Qed.

Lemma withTableMap_twice s (m1 m2 : gmap Z tableDetail.t) :
  withTableMap (withTableMap s m1) m2 = withTableMap s m2.
Proof. reflexivity. Qed.

(** *** Computations that only store *)

Lemma performs_ret : performs (W := W) (ret tt) [].
Proof. intros s; unfold ret; simpl. by rewrite withTableMap_id. Qed.

Lemma performs_Store id detail : performs (W := W) (Store id detail) [EvStore id detail].
Proof. intros s; reflexivity. Qed.

Lemma performs_seq (m1 m2 : M W unit) evs1 evs2 :
  performs m1 evs1 -> performs m2 evs2 ->
  performs (m1 ;;; m2) (evs1 ++ evs2).
Proof.
  intros H1 H2 s. rewrite bind_run, H1. unfold value, final, events; simpl.
  rewrite H2; simpl. by rewrite replay_app.
Qed.

Lemma performs_forEach {A} (l : list A) (body : A -> M W unit)
  (evs : A -> list Event) :
  (forall x, performs (body x) (evs x)) ->
  performs (forEach l body) (flat_map evs l).
Proof.
  intros Hbody. induction l as [|x l IH]; simpl.
  - apply performs_ret.
  - apply performs_seq; auto.
Qed.

Lemma flat_map_singleton {A B} (f : A -> B) (l : list A) :
  flat_map (fun x => [f x]) l = map f l.
Proof. induction l; simpl; congruence. Qed.

Lemma performs_table dbname (table : TableInfo.t) :
  performs (W := W)
    (Store (TableInfo.ID table) (tableEntry dbname table) ;;;
     match TableInfo.GetPartitionInfo table with
     | Some partition =>
         forEach (PartitionInfo.Definitions partition) (fun partitionDef =>
           Store (PartitionDefinition.ID partitionDef)
             (partitionEntry dbname table partitionDef))
     | None => ret tt
     end)
    (tableStores dbname table).
Proof.
  unfold tableStores.
  change (EvStore (TableInfo.ID table) (tableEntry dbname table) :: ?l)
    with ([EvStore (TableInfo.ID table) (tableEntry dbname table)] ++ l).
  apply performs_seq; [apply performs_Store|].
  destruct (TableInfo.GetPartitionInfo table) as [partition|].
  - rewrite <- flat_map_singleton.
    apply performs_forEach. intros def. apply performs_Store.
  - apply performs_ret.
Qed.

Lemma updateTableMap_performs dbname (tableInfos : list TableInfo.t) :
  performs (W := W) (updateTableMap dbname tableInfos)
    (flat_map (tableStores dbname) tableInfos).
Proof.
  unfold updateTableMap. destruct tableInfos as [|t ts].
  - apply performs_ret.
  - apply (performs_forEach (t :: ts)). intros table.
    apply performs_table.
Qed.

Lemma updateTableMapByDBTableInfos_performs
  (dbTableInfos : list (Z * DBTableInfo.t)) :
  performs (W := W) (updateTableMapByDBTableInfos dbTableInfos)
    (flat_map (fun kv =>
                 tableStores
                   (CIStr.O (DBInfo.Name (DBTableInfo.DBInfo kv.2)))
                   (DBTableInfo.TableInfo kv.2))
       dbTableInfos).
Proof.
  unfold updateTableMapByDBTableInfos. destruct dbTableInfos as [|d ds].
  - apply performs_ret.
  - apply (performs_forEach (d :: ds)). intros [k dbTable]. simpl.
    apply performs_table.
Qed.

Lemma updateTableMap_run dbname (tableInfos : list TableInfo.t) s :
  updateTableMap dbname tableInfos s =
  (tt,
   withTableMap s
     (replay (flat_map (tableStores dbname) tableInfos) (TableMap (strategy s))),
   flat_map (tableStores dbname) tableInfos).
Proof. exact (updateTableMap_performs dbname tableInfos s). Qed.

Lemma updateTableMapByDBTableInfos_run
  (dbTableInfos : list (Z * DBTableInfo.t)) s :
  updateTableMapByDBTableInfos dbTableInfos s =
  (tt,
   withTableMap s (replay (dbTableStores dbTableInfos) (TableMap (strategy s))),
   dbTableStores dbTableInfos).
Proof. exact (updateTableMapByDBTableInfos_performs dbTableInfos s). Qed.

End Facts.

Create Rewrite HintDb run.
#[global] Hint Rewrite @value_mk @final_mk @events_mk : run.

(** ** Traces of stores, requests and loops *)

Section Loops.
Context {W : Type} `{Cluster W}.
Implicit Types (s : System W) (evs : list Event).

Lemma storesOnly_tableStores dbname table :
  Forall (fun e => isStore e = true) (tableStores dbname table).
Proof.
  unfold tableStores. constructor; [reflexivity|].
  destruct (TableInfo.GetPartitionInfo table); [|constructor].
  apply Forall_forall. intros e He. apply list_elem_of_In in He.
  apply in_map_iff in He as [d [<- _]]. reflexivity.
Qed.

Lemma storesOnly_flat_map {A} (f : A -> list Event) (l : list A) :
  (forall x, Forall (fun e => isStore e = true) (f x)) ->
  Forall (fun e => isStore e = true) (flat_map f l).
Proof.
  intros Hf. induction l; simpl; [constructor|].
  apply Forall_app; auto.
Qed.

Lemma storesOnly_filter (p : Event -> bool) evs :
  (forall e, isStore e = true -> p e = false) ->
  Forall (fun e => isStore e = true) evs -> filter p evs = [].
Proof.
  intros Hp. induction 1 as [|e evs He _ IH]; [reflexivity|].
  rewrite filter_cons. destruct (decide (p e)) as [Hpe|_]; [|exact IH].
  rewrite (Hp e He) in Hpe. inversion Hpe.
Qed.

Lemma storesOnly_allOk evs :
  Forall (fun e => isStore e = true) evs -> allOk evs = true.
Proof.
  induction 1 as [|e evs He _ IH]; [reflexivity|].
  simpl. rewrite IH. destruct e; try discriminate He; reflexivity.
Qed.

Lemma storesOnly_returned404 evs :
  Forall (fun e => isStore e = true) evs -> returned404 evs = false.
Proof.
  induction 1 as [|e evs He _ IH]; [reflexivity|].
  simpl. rewrite IH. destruct e; try discriminate He; reflexivity.
Qed.

Lemma storesOnly_requestPaths evs :
  Forall (fun e => isStore e = true) evs -> requestPaths evs = [].
Proof.
  induction 1 as [|e evs He _ IH]; [reflexivity|].
  destruct e; try discriminate He. exact IH.
Qed.

Lemma storesOnly_requestErrors evs :
  Forall (fun e => isStore e = true) evs -> requestErrors evs = [].
Proof.
  induction 1 as [|e evs He _ IH]; [reflexivity|].
  destruct e; try discriminate He. exact IH.
Qed.

Lemma requestErrors_app evs1 evs2 :
  requestErrors (evs1 ++ evs2) = requestErrors evs1 ++ requestErrors evs2.
Proof. apply omap_app. Qed.

Lemma allOk_app evs1 evs2 : allOk (evs1 ++ evs2) = allOk evs1 && allOk evs2.
Proof. apply forallb_app. Qed.

Lemma returned404_app evs1 evs2 :
  returned404 (evs1 ++ evs2) = returned404 evs1 || returned404 evs2.
Proof. apply existsb_app. Qed.

Lemma requestPaths_app evs1 evs2 :
  requestPaths (evs1 ++ evs2) = requestPaths evs1 ++ requestPaths evs2.
Proof. apply omap_app. Qed.

(** *** One request *)

Lemma request_final {T} (unmarshal : string -> result T) path s :
  final (request unmarshal path s) =
  mkSystem (strategy s) (snd (tidbClient_SendGetRequest path (world s))).
Proof.
  unfold request, final.
  destruct (tidbClient_SendGetRequest path (world s)); reflexivity.
Qed.

Lemma request_events {T} (unmarshal : string -> result T) path s :
  events (request unmarshal path s) =
  [EvRequest path (fst (tidbClient_SendGetRequest path (world s)))
     (errorOf (value (request unmarshal path s)))].
Proof.
  unfold request, events, value.
  destruct (tidbClient_SendGetRequest path (world s)); reflexivity.
Qed.

Lemma request_strategy {T} (unmarshal : string -> result T) path s :
  strategy (final (request unmarshal path s)) = strategy s.
Proof. rewrite request_final; reflexivity. Qed.

(** What [request] returns is the decoded body of what the transport
    returned. *)
Lemma request_value {T} (unmarshal : string -> result T) path s v :
  value (request unmarshal path s) = Ok v ->
  exists data,
    fst (tidbClient_SendGetRequest path (world s)) = Ok data /\
    unmarshal data = Ok v.
Proof.
  unfold request, value.
  destruct (tidbClient_SendGetRequest path (world s)) as [[data|e] w];
    simpl; [|discriminate].
  destruct (unmarshal data) eqn:E; [|discriminate].
  intros [= <-]. eauto.
Qed.

(** *** Unfolding the loops *)

Lemma requestBatches_cons batch rest s :
  requestBatches (batch :: rest) s =
  let r1 := request Unmarshal_DBTableInfos (dbTablePath batch) s in
  match value r1 with
  | Err err =>
      (false,
       (if Contains err "404"
        then final (setEndpointNotFound (final r1)) else final r1),
       events r1)
  | Ok dbTableInfos =>
      let s2 := withTableMap (final r1)
                  (replay (dbTableStores dbTableInfos)
                     (TableMap (strategy (final r1)))) in
      let r3 := requestBatches rest s2 in
      (value r3, final r3,
       events r1 ++ dbTableStores dbTableInfos ++ events r3)
  end.
Proof.
  simpl requestBatches. rewrite bind_run. cbv zeta.
  destruct (value (request Unmarshal_DBTableInfos (dbTablePath batch) s))
    as [infos|err].
  - rewrite bind_run.
    rewrite updateTableMapByDBTableInfos_run.
    autorewrite with run. reflexivity.
  - rewrite bind_run. unfold ret at 1 2 3. unfold value at 1, final at 1, events at 2.
    simpl. rewrite app_nil_r.
    destruct (Contains err "404"); unfold value, final, events; simpl;
      rewrite app_nil_r; reflexivity.
Qed.

Lemma scanDatabases_cons db rest updateSuccess s :
  scanDatabases (db :: rest) updateSuccess s =
  if decide (DBInfo.State db = model.StateNone)
  then scanDatabases rest updateSuccess s
  else
    let r1 := request Unmarshal_TableInfos
                (schemaDBPath (CIStr.O (DBInfo.Name db))) s in
    match value r1 with
    | Err _ =>
        let r3 := scanDatabases rest false (final r1) in
        (value r3, final r3, events r1 ++ events r3)
    | Ok tableInfos =>
        let stores :=
          flat_map (tableStores (CIStr.O (DBInfo.Name db))) tableInfos in
        let s2 := withTableMap (final r1)
                    (replay stores (TableMap (strategy (final r1)))) in
        let r3 := scanDatabases rest updateSuccess s2 in
        (value r3, final r3, events r1 ++ stores ++ events r3)
    end.
Proof.
  simpl scanDatabases. destruct (decide (DBInfo.State db = model.StateNone));
    [reflexivity|].
  rewrite bind_run. cbv zeta.
  destruct (value (request Unmarshal_TableInfos
                     (schemaDBPath (CIStr.O (DBInfo.Name db))) s))
    as [tableInfos|err].
  - rewrite bind_run.
    rewrite updateTableMap_run.
    autorewrite with run. reflexivity.
  - reflexivity.
Qed.

End Loops.

Section LoopSpecs.
Context {W : Type} `{Cluster W}.
Implicit Types (s : System W) (st : tidbLabelStrategy W) (evs : list Event).

Lemma evolves_refl st : evolves st [] st.
Proof. unfold evolves; simpl. by rewrite orb_false_r. Qed.

Lemma evolves_trans st1 evs1 st2 evs2 st3 :
  evolves st1 evs1 st2 -> evolves st2 evs2 st3 ->
  evolves st1 (evs1 ++ evs2) st3.
Proof.
  intros (G1 & V1 & T1 & F1) (G2 & V2 & T2 & F2). unfold evolves.
  rewrite replay_app, returned404_app, G2, V2, T2, F2, G1, V1, T1, F1.
  by rewrite orb_assoc.
Qed.

Lemma evolves_stores s evs :
  Forall (fun e => isStore e = true) evs ->
  evolves (strategy s) evs
    (strategy (withTableMap s (replay evs (TableMap (strategy s))))).
Proof.
  intros Hs. unfold evolves; simpl.
  rewrite (storesOnly_returned404 _ Hs). by rewrite orb_false_r.
Qed.

Lemma storesOnly_dbTableStores infos :
  Forall (fun e => isStore e = true) (dbTableStores infos).
Proof.
  apply storesOnly_flat_map. intros. apply storesOnly_tableStores.
Qed.

Lemma storesOnly_tables dbname tableInfos :
  Forall (fun e => isStore e = true)
    (flat_map (tableStores dbname) tableInfos).
Proof.
  apply storesOnly_flat_map. intros. apply storesOnly_tableStores.
Qed.

Lemma evolves_request_ok {T} (unmarshal : string -> result T) path s :
  errorOf (value (request unmarshal path s)) = None ->
  evolves (strategy s) (events (request unmarshal path s))
    (strategy (final (request unmarshal path s))).
Proof.
  intros He. rewrite request_events, request_strategy, He.
  unfold evolves; simpl. by rewrite orb_false_r.
Qed.

(** *** The batched requests *)

Lemma requestBatches_evolves bs s :
  evolves (strategy s) (events (requestBatches bs s))
    (strategy (final (requestBatches bs s))).
Proof.
  revert s. induction bs as [|b bs IH]; intros s.
  - apply evolves_refl.
  - rewrite requestBatches_cons. cbv zeta.
    destruct (value (request Unmarshal_DBTableInfos (dbTablePath b) s))
      as [infos|err] eqn:Hv.
    + autorewrite with run.
      eapply evolves_trans; [apply evolves_request_ok; by rewrite Hv|].
      eapply evolves_trans; [apply evolves_stores, storesOnly_dbTableStores|].
      apply IH.
    + autorewrite with run.
      rewrite request_events, Hv. unfold evolves. simpl.
      rewrite orb_false_r.
      destruct (Contains err "404"); simpl; rewrite request_strategy;
        rewrite ?orb_true_r, ?orb_false_r; auto.
Qed.

Lemma requestBatches_value bs s :
  value (requestBatches bs s) = allOk (events (requestBatches bs s)).
Proof.
  revert s. induction bs as [|b bs IH]; intros s; [reflexivity|].
  rewrite requestBatches_cons. cbv zeta.
  destruct (value (request Unmarshal_DBTableInfos (dbTablePath b) s))
    as [infos|err] eqn:Hv.
  - autorewrite with run.
    rewrite !allOk_app, request_events, Hv, <- IH.
    by rewrite (storesOnly_allOk _ (storesOnly_dbTableStores infos)).
  - autorewrite with run. by rewrite request_events, Hv.
Qed.

(** Every request of the loop goes to the combined endpoint, one batch
    after the other, and none follows a failed one. *)
Lemma requestBatches_requests bs s :
  let evs := events (requestBatches bs s) in
  filter isScanRequest evs = [] /\
  requestPaths (filter isBatchRequest evs) = requestPaths evs /\
  allOk (filter isBatchRequest evs) = allOk evs /\
  exists k,
    requestPaths evs = map dbTablePath (take k bs) /\
    (k <= length bs)%nat /\
    (bs <> [] -> k <> 0%nat) /\
    if allOk evs
    then k = length bs /\ requestErrors evs = replicate k None
    else exists err, requestErrors evs = replicate (pred k) None ++ [Some err].
Proof.
  revert s. induction bs as [|b bs IH]; intros s; cbv zeta.
  - simpl. repeat split; try reflexivity. exists 0%nat. simpl.
    repeat split; done.
  - rewrite requestBatches_cons. cbv zeta.
    destruct (value (request Unmarshal_DBTableInfos (dbTablePath b) s))
      as [infos|err] eqn:Hv.
    + autorewrite with run.
      destruct (IH (withTableMap
                      (final (request Unmarshal_DBTableInfos (dbTablePath b) s))
                      (replay (dbTableStores infos)
                         (TableMap (strategy (final
                            (request Unmarshal_DBTableInfos (dbTablePath b) s)))))))
        as (S1 & S2 & S3 & k & K1 & K2 & K3 & K4).
      pose proof (storesOnly_dbTableStores infos) as Hst.
      rewrite !filter_app, !allOk_app, !requestPaths_app.
      rewrite S1, S2, S3, request_events, Hv.
      rewrite (storesOnly_filter isScanRequest _ (fun e He => ltac:(by destruct e)) Hst).
      rewrite (storesOnly_filter isBatchRequest _ (fun e He => ltac:(by destruct e)) Hst).
      rewrite (storesOnly_allOk _ Hst), (storesOnly_requestPaths _ Hst).
      simpl. repeat split; try reflexivity.
      exists (S k). simpl. rewrite K1. repeat split; [lia|discriminate|].
      rewrite !requestErrors_app, (storesOnly_requestErrors _ Hst). simpl.
      destruct (allOk (events (requestBatches bs _))) eqn:Hok.
      * destruct K4 as [-> ->]. auto.
      * destruct K4 as [e K4]. exists e. rewrite K4.
        destruct k as [|k]; [|reflexivity].
        destruct bs; [discriminate Hok|]. exfalso. by apply K3.
    + autorewrite with run.
      rewrite request_events, Hv. simpl.
      repeat split; try reflexivity.
      exists 1%nat. simpl. repeat split; [lia|lia|].
      exists err. reflexivity.
Qed.

Lemma requestBatches_only_batch bs s :
  Forall (fun e => isRequest e = true -> isBatchRequest e = true)
    (events (requestBatches bs s)).
Proof.
  revert s. induction bs as [|b bs IH]; intros s; [constructor|].
  rewrite requestBatches_cons. cbv zeta.
  destruct (value (request Unmarshal_DBTableInfos (dbTablePath b) s))
    as [infos|err] eqn:Hv; autorewrite with run; rewrite request_events.
  - constructor; [done|]. apply Forall_app. split; [|apply IH].
    eapply Forall_impl; [apply storesOnly_dbTableStores|].
    intros e He. by destruct e.
  - constructor; [done|constructor].
Qed.

Lemma only_batch_requestPaths evs :
  Forall (fun e => isRequest e = true -> isBatchRequest e = true) evs ->
  requestPaths (filter isBatchRequest evs) = requestPaths evs /\
  requestErrors (filter isBatchRequest evs) = requestErrors evs.
Proof.
  induction 1 as [|e evs He _ [IH1 IH2]]; [done|].
  rewrite filter_cons.
  destruct (decide (isBatchRequest e)) as [Hb|Hb].
  - destruct e; simpl; by rewrite ?IH1, ?IH2.
  - destruct e; simpl; try done.
    exfalso. apply Hb. by rewrite He.
Qed.

End LoopSpecs.

Section CycleSpecs.
Context {W : Type} `{Cluster W}.
Implicit Types (s : System W) (st : tidbLabelStrategy W) (evs : list Event).

(** *** The scan of the databases *)

Lemma evolves_request_other {T} (unmarshal : string -> result T) path s :
  String.prefix "/db-table" path = false ->
  evolves (strategy s) (events (request unmarshal path s))
    (strategy (final (request unmarshal path s))).
Proof.
  intros Hp. rewrite request_events, request_strategy.
  unfold evolves; simpl. rewrite Hp.
  destruct (errorOf _); simpl; by rewrite orb_false_r.
Qed.

Lemma scanDatabases_evolves dbs b s :
  evolves (strategy s) (events (scanDatabases dbs b s))
    (strategy (final (scanDatabases dbs b s))).
Proof.
  revert b s. induction dbs as [|db dbs IH]; intros b s.
  - apply evolves_refl.
  - rewrite scanDatabases_cons.
    destruct (decide (DBInfo.State db = model.StateNone)); [apply IH|].
    cbv zeta.
    destruct (value (request Unmarshal_TableInfos _ s)) as [ts|err];
      autorewrite with run.
    + eapply evolves_trans; [by apply evolves_request_other|].
      eapply evolves_trans; [apply evolves_stores, storesOnly_tables|].
      apply IH.
    + eapply evolves_trans; [by apply evolves_request_other|]. apply IH.
Qed.

Lemma scanDatabases_value dbs b s :
  value (scanDatabases dbs b s) = b && allOk (events (scanDatabases dbs b s)).
Proof.
  revert b s. induction dbs as [|db dbs IH]; intros b s.
  - simpl. unfold ret. autorewrite with run. simpl. by rewrite andb_true_r.
  - rewrite scanDatabases_cons.
    destruct (decide (DBInfo.State db = model.StateNone)); [apply IH|].
    cbv zeta.
    destruct (value (request Unmarshal_TableInfos _ s)) as [ts|err] eqn:Hv;
      autorewrite with run; rewrite IH, !allOk_app, request_events, Hv.
    + by rewrite (storesOnly_allOk _ (storesOnly_tables _ ts)).
    + simpl. by rewrite andb_false_r.
Qed.

(** One request per database that is not in [StateNone], in the order of
    the list, whatever the earlier requests returned. *)
Lemma scanDatabases_requests dbs b s :
  let evs := events (scanDatabases dbs b s) in
  filter isBatchRequest evs = [] /\
  allOk (filter isScanRequest evs) = allOk evs /\
  requestPaths evs =
    map (fun db => schemaDBPath (CIStr.O (DBInfo.Name db)))
      (filter (fun db => DBInfo.State db <> model.StateNone) dbs).
Proof.
  revert b s. induction dbs as [|db dbs IH]; intros b s; cbv zeta.
  - simpl. auto.
  - rewrite scanDatabases_cons, filter_cons.
    destruct (decide (DBInfo.State db = model.StateNone)) as [Hn|Hn].
    { destruct (decide (DBInfo.State db <> model.StateNone)); [done|].
      apply IH. }
    destruct (decide (DBInfo.State db <> model.StateNone)); [|done].
    cbv zeta.
    destruct (value (request Unmarshal_TableInfos _ s)) as [ts|err] eqn:Hv;
      autorewrite with run.
    + destruct (IH b (withTableMap
                        (final (request Unmarshal_TableInfos
                                  (schemaDBPath (CIStr.O (DBInfo.Name db))) s))
                        (replay
                           (flat_map (tableStores (CIStr.O (DBInfo.Name db))) ts)
                           (TableMap (strategy (final
                              (request Unmarshal_TableInfos
                                 (schemaDBPath (CIStr.O (DBInfo.Name db))) s)))))))
        as (S1 & S2 & S3).
      pose proof (storesOnly_tables (CIStr.O (DBInfo.Name db)) ts) as Hst.
      rewrite !filter_app, !allOk_app, !requestPaths_app, S1, S2, S3.
      rewrite request_events, Hv.
      rewrite (storesOnly_filter isScanRequest _ (fun e He => ltac:(by destruct e)) Hst).
      rewrite (storesOnly_filter isBatchRequest _ (fun e He => ltac:(by destruct e)) Hst).
      rewrite (storesOnly_allOk _ Hst), (storesOnly_requestPaths _ Hst).
      simpl. auto.
    + destruct (IH false (final (request Unmarshal_TableInfos
                                   (schemaDBPath (CIStr.O (DBInfo.Name db))) s)))
        as (S1 & S2 & S3).
      rewrite !filter_app, !allOk_app, !requestPaths_app, S1, S2, S3.
      rewrite request_events, Hv. simpl. auto.
Qed.

(** *** Unfolding the cycle *)

Lemma fullScan_run schemaVersion s :
  fullScan schemaVersion s =
  let r1 := request Unmarshal_DBInfos "/schema" s in
  match value r1 with
  | Err _ => (tt, final r1, events r1)
  | Ok dbInfos =>
      let r2 := scanDatabases dbInfos true (final r1) in
      (tt,
       (if value r2 then final (setSchemaVersion schemaVersion (final r2))
        else final r2),
       events r1 ++ events r2)
  end.
Proof.
  unfold fullScan. rewrite bind_run. cbv zeta.
  destruct (value (request Unmarshal_DBInfos "/schema" s)) as [dbs|err].
  - rewrite bind_run.
    destruct (value (scanDatabases dbs true _)); unfold ret, setSchemaVersion;
      autorewrite with run; by rewrite app_nil_r.
  - unfold ret; autorewrite with run. by rewrite app_nil_r.
Qed.

Lemma batchAttempt_run schemaVersion s :
  batchAttempt schemaVersion s =
  match getTableIDs (strategy s) with
  | Some provider =>
      if dbTableInfosEndpointNotFound (strategy s) then (false, s, [])
      else
        let ids := fst (provider (world s)) in
        let s1 := mkSystem (strategy s) (snd (provider (world s))) in
        if Nat.eqb (length ids) 0 then (true, s1, [EvGetTableIDs])
        else
          let r := requestBatches (makeBatches ids) s1 in
          if value r
          then (true, final (setSchemaVersion schemaVersion (final r)),
                EvGetTableIDs :: events r)
          else (false, final r, EvGetTableIDs :: events r)
  | None => (false, s, [])
  end.
Proof.
  unfold batchAttempt. rewrite bind_run.
  unfold getStrategy. cbv beta. autorewrite with run. simpl app.
  destruct (getTableIDs (strategy s)) as [provider|]; [|reflexivity].
  destruct (dbTableInfosEndpointNotFound (strategy s)); [reflexivity|].
  change (negb false) with true. cbv iota. rewrite bind_run. cbv zeta.
  assert (callGetTableIDs provider s =
          ((provider (world s)).1,
           mkSystem (strategy s) (provider (world s)).2, [EvGetTableIDs])) as ->.
  { unfold callGetTableIDs. by destruct (provider (world s)). }
  autorewrite with run.
  destruct (Nat.eqb (length (provider (world s)).1) 0); [reflexivity|].
  rewrite bind_run.
  destruct (value (requestBatches _ _)).
  - rewrite bind_run. unfold ret, setSchemaVersion. autorewrite with run.
    by rewrite !app_nil_r.
  - unfold ret. autorewrite with run. by rewrite app_nil_r.
Qed.

Lemma EtcdGet_run key s :
  EtcdGet key s =
  (fst (EtcdClient_Get key (world s)),
   mkSystem (strategy s) (snd (EtcdClient_Get key (world s))),
   [EvEtcdGet key]).
Proof. unfold EtcdGet. by destruct (EtcdClient_Get key (world s)). Qed.

Lemma updateMap_run s :
  updateMap s =
  let s0 := mkSystem (strategy s)
              (snd (EtcdClient_Get schemaVersionPath (world s))) in
  match fetchedVersion s with
  | None => (tt, s0, [EvEtcdGet schemaVersionPath])
  | Some schemaVersion =>
      if (schemaVersion =? SchemaVersion (strategy s))%Z
      then (tt, s0, [EvEtcdGet schemaVersionPath])
      else
        let r1 := batchAttempt schemaVersion s0 in
        if value r1
        then (tt, final r1, EvEtcdGet schemaVersionPath :: events r1)
        else
          let r2 := fullScan schemaVersion (final r1) in
          (tt, final r2,
           EvEtcdGet schemaVersionPath :: events r1 ++ events r2)
  end.
Proof.
  unfold updateMap, fetchedVersion, checkedVersion.
  rewrite bind_run, EtcdGet_run. autorewrite with run. cbv zeta.
  destruct (EtcdClient_Get schemaVersionPath (world s)).1 as [resp|err];
    [|reflexivity].
  destruct (GetResponse.Kvs resp) as [|kv [|kv' kvs]]; try reflexivity.
  destruct (ParseInt (KeyValue.Value kv)) as [v|]; [|reflexivity].
  rewrite bind_run. unfold getStrategy. cbv beta. autorewrite with run.
  cbn [strategy].
  destruct (v =? SchemaVersion (strategy s))%Z;
    [unfold ret; autorewrite with run; reflexivity|].
  rewrite bind_run. simpl app.
  destruct (value (batchAttempt v _)).
  - unfold ret. autorewrite with run. by rewrite app_nil_r.
  - autorewrite with run. by destruct (value (fullScan v _)).
Qed.

End CycleSpecs.

(** ** The batches *)

Section Batches.

Lemma FormatInt_inj (i j : Z) : FormatInt i = FormatInt j -> i = j.
Proof.
  unfold FormatInt. intros E.
  apply DecimalZ.to_int_inj.
  assert (Some (Z.to_int i) = Some (Z.to_int j)) as [= ->]; [|reflexivity].
  rewrite <- !NilEmpty.isi. by rewrite E.
Qed.

Lemma tableInfosBatchSize_pos : (0 < tableInfosBatchSize)%nat.
Proof. unfold tableInfosBatchSize. lia. Qed.

#[local] Opaque tableInfosBatchSize.

Lemma fillBatches_cons id (ids : list Z) (bs : list (list string))
  (batch : list string) (n : nat) :
  fillBatches (id :: ids) bs batch n =
  if Nat.eqb (S n) tableInfosBatchSize
  then fillBatches ids (bs ++ [batch ++ [FormatInt id]]) [] 0%nat
  else fillBatches ids bs (batch ++ [FormatInt id]) (S n).
Proof. reflexivity. Qed.

Lemma fillBatches_spec (ids : list Z) (bs : list (list string))
  (batch : list string) (n : nat) :
  n = length batch -> (n < tableInfosBatchSize)%nat ->
  Forall (fun b => length b = tableInfosBatchSize) bs ->
  Forall (fun b => length b = tableInfosBatchSize) (fillBatches ids bs batch n).1 /\
  (length (fillBatches ids bs batch n).2 < tableInfosBatchSize)%nat /\
  concat (fillBatches ids bs batch n).1 ++ (fillBatches ids bs batch n).2 =
    concat bs ++ batch ++ map FormatInt ids /\
  (length bs <= length (fillBatches ids bs batch n).1)%nat.
Proof.
  revert bs batch n. induction ids as [|id ids IH]; intros bs batch n Hn Hlt Hbs.
  - simpl. rewrite app_nil_r. subst. auto.
  - rewrite fillBatches_cons.
    destruct (Nat.eqb_spec (S n) tableInfosBatchSize) as [Heq|Hne].
    + destruct (IH (bs ++ [batch ++ [FormatInt id]]) [] 0%nat) as (I1 & I2 & I3 & I4).
      * reflexivity.
      * lia.
      * apply Forall_app. split; [exact Hbs|]. constructor; [|constructor].
        rewrite length_app. simpl. lia.
      * refine (conj I1 (conj I2 (conj _ _))).
        -- rewrite I3, concat_app. simpl. by rewrite !app_nil_r, <- !app_assoc.
        -- rewrite length_app in I4. simpl in I4. lia.
    + destruct (IH bs (batch ++ [FormatInt id]) (S n)) as (I1 & I2 & I3 & I4).
      * rewrite length_app. simpl. lia.
      * lia.
      * exact Hbs.
      * refine (conj I1 (conj I2 (conj _ I4))).
        rewrite I3. simpl. by rewrite <- !app_assoc.
Qed.

Lemma length_concat_full (bs : list (list string)) :
  Forall (fun b => length b = tableInfosBatchSize) bs ->
  length (concat bs) = (tableInfosBatchSize * length bs)%nat.
Proof.
  induction 1 as [|b bs Hb _ IH]; cbn [concat length]; [lia|].
  rewrite length_app, IH, Hb. lia.
Qed.

(** The batches of a set that is not empty: full batches, then one last
    batch with what is left, between one identifier and a full batch. *)
Lemma makeBatches_shape (ids : list Z) :
  ids <> [] ->
  exists full last,
    makeBatches ids = full ++ [last] /\
    Forall (fun b => length b = tableInfosBatchSize) full /\
    (1 <= length last <= tableInfosBatchSize)%nat /\
    (length last = length ids - tableInfosBatchSize * length full)%nat /\
    concat (makeBatches ids) = map FormatInt ids.
Proof.
  intros Hne. unfold makeBatches.
  pose proof tableInfosBatchSize_pos as HB.
  destruct (fillBatches_spec ids [] [] 0%nat eq_refl HB (Forall_nil_2 _))
    as (F1 & F2 & F3 & _).
  destruct (fillBatches ids [] [] 0%nat) as [bs batch]. simpl in *.
  assert (length (concat bs) + length batch = length ids)%nat as Hlen.
  { rewrite <- length_app, F3. apply length_map. }
  rewrite (length_concat_full _ F1) in Hlen.
  destruct (Nat.ltb_spec 0 (length batch)) as [Hpos|Hzero].
  - exists bs, batch. repeat split; auto; try lia.
    rewrite concat_app. simpl. by rewrite app_nil_r.
  - destruct batch; [|simpl in Hzero; lia]. simpl in Hlen.
    rewrite app_nil_r in F3.
    destruct (exists_last (l := bs)) as (full & last & ->).
    { intros ->. destruct ids; [done|discriminate]. }
    apply Forall_app in F1 as [Ffull Flast].
    apply Forall_cons in Flast as [Flast _].
    rewrite length_app in Hlen. simpl in Hlen.
    exists full, last. repeat split; auto; lia.
Qed.

Lemma makeBatches_length (ids : list Z) :
  length (makeBatches ids) =
  ((length ids + (tableInfosBatchSize - 1)) / tableInfosBatchSize)%nat.
Proof.
  pose proof tableInfosBatchSize_pos as HB.
  destruct ids as [|id ids].
  - symmetry. apply Nat.div_small. simpl. lia.
  - destruct (makeBatches_shape (id :: ids)) as (full & last & E & F & L1 & L2 & _);
      [discriminate|].
    rewrite E, length_app. simpl length at 2.
    set (B := tableInfosBatchSize) in *. set (n := length (id :: ids)) in *.
    apply (Nat.div_unique _ _ _ (length last - 1)); lia.
Qed.

#[local] Transparent tableInfosBatchSize.

End Batches.

(** ** More on the loops *)

Section MoreLoops.
Context {W : Type} `{Cluster W}.
Implicit Types (s : System W) (evs : list Event).

Lemma scanDatabases_app dbs1 dbs2 b s :
  scanDatabases (dbs1 ++ dbs2) b s =
  let r1 := scanDatabases dbs1 b s in
  let r2 := scanDatabases dbs2 (value r1) (final r1) in
  (value r2, final r2, events r1 ++ events r2).
Proof.
  revert b s. induction dbs1 as [|db dbs1 IH]; intros b s; cbv zeta.
  - simpl app. change (scanDatabases [] b s) with (b, s, @nil Event).
    autorewrite with run. simpl app. apply run_eta.
  - change ((db :: dbs1) ++ dbs2) with (db :: (dbs1 ++ dbs2)).
    rewrite (scanDatabases_cons db (dbs1 ++ dbs2)), (scanDatabases_cons db dbs1).
    destruct (decide (DBInfo.State db = model.StateNone)); [apply IH|].
    cbv zeta.
    destruct (value (request Unmarshal_TableInfos _ s)) as [ts|err];
      rewrite IH; cbv zeta; autorewrite with run; by rewrite <- ?app_assoc.
Qed.

Lemma replay_lookup_mono evs (m : gmap Z tableDetail.t) k :
  is_Some (m !! k) -> is_Some (replay evs m !! k).
Proof.
  revert m. induction evs as [|e evs IH]; intros m Hk; [exact Hk|].
  simpl. apply IH. destruct e; try exact Hk.
  destruct (decide (id = k)) as [->|Hne].
  - rewrite lookup_insert_eq. eauto.
  - by rewrite lookup_insert_ne.
Qed.

Lemma replay_changed evs (m : gmap Z tableDetail.t) k :
  replay evs m !! k <> m !! k -> exists d, In (EvStore k d) evs.
Proof.
  revert m. induction evs as [|e evs IH]; intros m Hk; [done|].
  simpl in Hk.
  destruct e as [key| |path raw err|id detail];
    try (destruct (IH _ Hk) as [d Hd]; exists d; by right).
  destruct (decide (id = k)) as [->|Hne].
  - exists detail. by left.
  - destruct (IH (<[id:=detail]> m)) as [d Hd].
    + by rewrite (lookup_insert_ne m id k detail Hne).
    + exists d. by right.
Qed.

Lemma indexNames_snoc (l : list IndexInfo.t) (x : IndexInfo.t) :
  indexNames (l ++ [x]) =
  <[IndexInfo.ID x := CIStr.O (IndexInfo.Name x)]> (indexNames l).
Proof. unfold indexNames. by rewrite foldl_app. Qed.



End MoreLoops.

(** ** The cycle *)

Section Cycle.
Context {W : Type} `{Cluster W}.
Implicit Types (s : System W) (evs : list Event).

Lemma succeeded_allOk evs : requestPaths evs <> [] -> succeeded evs = allOk evs.
Proof. destruct evs; [done|reflexivity]. Qed.

Lemma fullScan_spec schemaVersion s :
  let r := fullScan schemaVersion s in
  getTableIDs (strategy (final r)) = getTableIDs (strategy s) /\
  dbTableInfosEndpointNotFound (strategy (final r)) =
    dbTableInfosEndpointNotFound (strategy s) /\
  TableMap (strategy (final r)) = replay (events r) (TableMap (strategy s)) /\
  SchemaVersion (strategy (final r)) =
    (if allOk (events r) then schemaVersion else SchemaVersion (strategy s)) /\
  filter isBatchRequest (events r) = [] /\
  succeeded (filter isScanRequest (events r)) = allOk (events r) /\
  returned404 (events r) = false /\
  exists raw err rest, events r = EvRequest "/schema" raw err :: rest.
Proof.
  cbv zeta. rewrite fullScan_run. cbv zeta.
  pose proof (request_events Unmarshal_DBInfos "/schema" s) as Hev.
  pose proof (request_strategy Unmarshal_DBInfos "/schema" s) as Hst.
  destruct (value (request Unmarshal_DBInfos "/schema" s)) as [dbs|err] eqn:Hv;
    autorewrite with run.
  - set (s1 := final (request Unmarshal_DBInfos "/schema" s)) in *.
    destruct (scanDatabases_evolves dbs true s1) as (G & V & T & F).
    destruct (scanDatabases_requests dbs true s1) as (B & A & _).
    pose proof (scanDatabases_value dbs true s1) as Hval. simpl in Hval.
    pose proof (evolves_request_other Unmarshal_DBInfos "/schema" s eq_refl)
      as (_ & _ & _ & F0).
    fold s1 in F0.
    assert (returned404 (events (scanDatabases dbs true s1)) = false) as Hnf.
    { clear -B. induction (events (scanDatabases dbs true s1)) as [|e l IH];
        [reflexivity|].
      rewrite filter_cons in B. destruct (decide (isBatchRequest e)) as [Hb|Hb];
        [discriminate|].
      simpl. rewrite (IH B), orb_false_r.
      destruct e as [| |p r [e|]|]; try reflexivity.
      simpl in Hb. destruct (String.prefix "/db-table" p); [by destruct Hb|done]. }
    simpl errorOf in Hev. rewrite Hev. clear F0.
    assert (forall st',
              (st' = strategy (final (scanDatabases dbs true s1)) \/
               st' = strategy (final (setSchemaVersion schemaVersion
                                        (final (scanDatabases dbs true s1))))) ->
              getTableIDs st' = getTableIDs (strategy s) /\
              dbTableInfosEndpointNotFound st' =
                dbTableInfosEndpointNotFound (strategy s) /\
              TableMap st' =
                replay ([EvRequest "/schema"
                           (tidbClient_SendGetRequest "/schema" (world s)).1 None]
                        ++ events (scanDatabases dbs true s1))
                  (TableMap (strategy s))) as Hframe.
    { intros st' [->| ->]; simpl; rewrite G, T, F, Hnf, Hst, orb_false_r; auto. }
    split; [|split; [|split; [|split; [|split; [|split; [|split]]]]]].
    + destruct (value (scanDatabases dbs true s1)); apply Hframe; auto.
    + destruct (value (scanDatabases dbs true s1)); apply Hframe; auto.
    + destruct (value (scanDatabases dbs true s1)); apply Hframe; auto.
    + rewrite allOk_app. simpl allOk at 1. simpl andb. rewrite <- Hval.
      destruct (value (scanDatabases dbs true s1)); simpl; [reflexivity|].
      by rewrite V, Hst.
    + rewrite filter_app, B. reflexivity.
    + rewrite filter_app, allOk_app. simpl. exact A.
    + rewrite returned404_app, Hnf. reflexivity.
    + eauto.
  - rewrite Hev, Hst. simpl. repeat split; eauto.
Qed.

Lemma makeBatches_nonempty (ids : list Z) : ids <> [] -> makeBatches ids <> [].
Proof.
  intros Hne. destruct (makeBatches_shape ids Hne) as (full & last & -> & _).
  by destruct full.
Qed.

Lemma batchAttempt_spec schemaVersion s :
  let r := batchAttempt schemaVersion s in
  getTableIDs (strategy (final r)) = getTableIDs (strategy s) /\
  dbTableInfosEndpointNotFound (strategy (final r)) =
    dbTableInfosEndpointNotFound (strategy s) || returned404 (events r) /\
  TableMap (strategy (final r)) = replay (events r) (TableMap (strategy s)) /\
  SchemaVersion (strategy (final r)) =
    (if succeeded (filter isBatchRequest (events r)) then schemaVersion
     else SchemaVersion (strategy s)) /\
  filter isScanRequest (events r) = [] /\
  (value r = false -> succeeded (filter isBatchRequest (events r)) = false) /\
  (allOk (filter isBatchRequest (events r)) = false -> value r = false) /\
  (dbTableInfosEndpointNotFound (strategy s) = true -> events r = []).
Proof.
  cbv zeta. rewrite batchAttempt_run.
  destruct (getTableIDs (strategy s)) as [provider|] eqn:Hg;
    [|autorewrite with run; simpl; rewrite orb_false_r; repeat split; auto].
  destruct (dbTableInfosEndpointNotFound (strategy s)) eqn:Hf;
    [autorewrite with run; simpl; repeat split; auto|].
  cbv zeta.
  destruct (Nat.eqb_spec (length (provider (world s)).1) 0) as [Hz|Hnz].
  { autorewrite with run. simpl. repeat split; auto; discriminate. }
  set (ids := (provider (world s)).1) in *.
  set (s1 := mkSystem (strategy s) (provider (world s)).2).
  assert (makeBatches ids <> []) as Hbs.
  { apply makeBatches_nonempty. by destruct ids. }
  destruct (requestBatches_evolves (makeBatches ids) s1) as (G & V & T & F).
  destruct (requestBatches_requests (makeBatches ids) s1)
    as (S1 & S2 & S3 & k & K1 & K2 & K3 & _).
  pose proof (requestBatches_value (makeBatches ids) s1) as Hval.
  assert (succeeded (filter isBatchRequest
                       (events (requestBatches (makeBatches ids) s1))) =
          value (requestBatches (makeBatches ids) s1)) as Hsucc.
  { rewrite succeeded_allOk, S3; [done|]. rewrite S2, K1.
    destruct k; [by destruct (K3 Hbs)|].
    destruct (makeBatches ids); [done|discriminate]. }
  assert (forall evs, filter isBatchRequest (EvGetTableIDs :: evs) =
                      filter isBatchRequest evs) as Hfb by done.
  assert (forall evs, filter isScanRequest (EvGetTableIDs :: evs) =
                      filter isScanRequest evs) as Hfs by done.
  simpl in G, V, T, F. rewrite Hf in F.
  destruct (value (requestBatches (makeBatches ids) s1)) eqn:Hv;
    autorewrite with run; rewrite Hfb, Hfs, Hsucc, S1; simpl;
    rewrite ?G, ?V, ?T, ?F; repeat split; auto; try discriminate.
  rewrite S3, <- Hval. discriminate.
Qed.

End Cycle.

Section CycleSummary.
Context {W : Type} `{Cluster W}.
Implicit Types (s : System W) (evs : list Event).

(** What one refresh cycle does to the strategy, read off its trace. *)
Lemma updateMap_spec s :
  let r := updateMap s in
  getTableIDs (strategy (final r)) = getTableIDs (strategy s) /\
  dbTableInfosEndpointNotFound (strategy (final r)) =
    dbTableInfosEndpointNotFound (strategy s) || returned404 (events r) /\
  TableMap (strategy (final r)) = replay (events r) (TableMap (strategy s)) /\
  SchemaVersion (strategy (final r)) =
    match fetchedVersion s with
    | Some schemaVersion =>
        if succeeded (filter isBatchRequest (events r)) ||
           succeeded (filter isScanRequest (events r))
        then schemaVersion else SchemaVersion (strategy s)
    | None => SchemaVersion (strategy s)
    end.
Proof.
  cbv zeta. rewrite updateMap_run. cbv zeta.
  destruct (fetchedVersion s) as [v|];
    [|autorewrite with run; simpl; by rewrite orb_false_r].
  destruct (v =? SchemaVersion (strategy s))%Z;
    [autorewrite with run; simpl; by rewrite orb_false_r|].
  set (s0 := mkSystem (strategy s) (EtcdClient_Get schemaVersionPath (world s)).2).
  destruct (batchAttempt_spec v s0) as (G1 & F1 & T1 & V1 & S1 & N1 & _ & _).
  assert (forall evs, filter isBatchRequest (EvEtcdGet schemaVersionPath :: evs) =
                      filter isBatchRequest evs) as Hfb by done.
  assert (forall evs, filter isScanRequest (EvEtcdGet schemaVersionPath :: evs) =
                      filter isScanRequest evs) as Hfs by done.
  destruct (value (batchAttempt v s0)) eqn:Hv; autorewrite with run.
  - rewrite Hfb, Hfs, S1. simpl. rewrite orb_false_r. auto.
  - destruct (fullScan_spec v (final (batchAttempt v s0)))
      as (G2 & F2 & T2 & V2 & B2 & A2 & N2 & _).
    rewrite Hfb, Hfs, !filter_app, B2, S1, app_nil_r. simpl app.
    rewrite (N1 eq_refl) in *. rewrite A2, G2, F2, T2, V2, G1, F1, T1, V1.
    simpl. rewrite returned404_app, N2, orb_false_r, replay_app. auto.
Qed.

Lemma replay_keys evs (m : gmap Z tableDetail.t) :
  dom m ⊆ dom (replay evs m).
Proof.
  intros k Hk. apply elem_of_dom. apply replay_lookup_mono.
  by apply elem_of_dom.
Qed.

End CycleSummary.

(** * The refresh cycle: commit, capability flag, version gate *)

Section CycleClaims.
Context {W : Type} `{Cluster W}.
Implicit Types (s : System W) (evs : list Event).

Lemma filter_batch_etcd evs :
  filter isBatchRequest (EvEtcdGet schemaVersionPath :: evs) =
  filter isBatchRequest evs.
Proof. done. Qed.

Lemma requestPaths_etcd evs :
  requestPaths (EvEtcdGet schemaVersionPath :: evs) = requestPaths evs.
Proof. done. Qed.

(** A cycle whose batched requests did not all succeed has gone on to the
    full scan. *)
Lemma updateMap_fallback s :
  allOk (filter isBatchRequest (events (updateMap s))) = false ->
  exists schemaVersion s1 evs1,
    fetchedVersion s = Some schemaVersion /\
    succeeded (filter isBatchRequest evs1) = false /\
    filter isBatchRequest (events (updateMap s)) = filter isBatchRequest evs1 /\
    events (updateMap s) =
      EvEtcdGet schemaVersionPath :: evs1 ++ events (fullScan schemaVersion s1) /\
    final (updateMap s) = final (fullScan schemaVersion s1).
Proof.
  rewrite updateMap_run. cbv zeta.
  destruct (fetchedVersion s) as [v|];
    [|autorewrite with run; rewrite filter_batch_etcd; intros [=]].
  destruct (v =? SchemaVersion (strategy s))%Z;
    [autorewrite with run; rewrite filter_batch_etcd; intros [=]|].
  set (s0 := mkSystem (strategy s) (EtcdClient_Get schemaVersionPath (world s)).2).
  destruct (batchAttempt_spec v s0) as (_ & _ & _ & _ & _ & N1 & N2 & _).
  destruct (value (batchAttempt v s0)) eqn:Hv; autorewrite with run.
  - rewrite filter_batch_etcd. intros Hf. discriminate (N2 Hf).
  - intros _. exists v, (final (batchAttempt v s0)), (events (batchAttempt v s0)).
    destruct (fullScan_spec v (final (batchAttempt v s0)))
      as (_ & _ & _ & _ & B2 & _).
    rewrite filter_batch_etcd, filter_app, B2, app_nil_r. auto.
Qed.

Lemma scanDatabases_only_scan dbs b s :
  Forall (fun e => isRequest e = true -> isScanRequest e = true)
    (events (scanDatabases dbs b s)).
Proof.
  revert b s. induction dbs as [|db dbs IH]; intros b s; [constructor|].
  rewrite scanDatabases_cons.
  destruct (decide (DBInfo.State db = model.StateNone)); [apply IH|].
  cbv zeta.
  destruct (value (request Unmarshal_TableInfos _ s)) as [ts|err];
    autorewrite with run; rewrite request_events.
  - constructor; [done|]. apply Forall_app. split; [|apply IH].
    eapply Forall_impl; [apply storesOnly_tables|].
    intros e He. by destruct e.
  - constructor; [done|apply IH].
Qed.

Lemma only_scan_requestPaths evs :
  Forall (fun e => isRequest e = true -> isScanRequest e = true) evs ->
  requestPaths (filter isScanRequest evs) = requestPaths evs /\
  Forall (fun e => isRequest e = true) (filter isScanRequest evs).
Proof.
  induction 1 as [|e evs He _ [IH1 IH2]]; [by split|].
  rewrite filter_cons.
  destruct (decide (isScanRequest e)) as [Hs|Hs].
  - split; [destruct e; simpl; by rewrite ?IH1|].
    constructor; [by destruct e|exact IH2].
  - split; [|exact IH2]. destruct e; simpl; try done.
    exfalso. apply Hs. by rewrite He.
Qed.

(** The requests of a full scan: the database list, and, when it was
    fetched, the table list of each database that is not in [StateNone],
    in the order of the list; the scan has succeeded when none of them
    returned an error. *)
Lemma fullScan_scan_requests schemaVersion s :
  exists raw err rest,
    filter isScanRequest (events (fullScan schemaVersion s)) =
      EvRequest "/schema" raw err :: rest /\
    Forall (fun e => isRequest e = true) rest /\
    match err with
    | Some _ =>
        rest = [] /\
        succeeded (filter isScanRequest (events (fullScan schemaVersion s)))
          = false
    | None =>
        exists data dbInfos,
          raw = Ok data /\ Unmarshal_DBInfos data = Ok dbInfos /\
          requestPaths rest =
            map (fun db => schemaDBPath (CIStr.O (DBInfo.Name db)))
              (filter (fun db => DBInfo.State db <> model.StateNone) dbInfos) /\
          succeeded (filter isScanRequest (events (fullScan schemaVersion s)))
            = allOk rest
    end.
Proof.
  rewrite fullScan_run. cbv zeta.
  pose proof (request_events Unmarshal_DBInfos "/schema" s) as Hev.
  destruct (value (request Unmarshal_DBInfos "/schema" s)) as [dbs|e] eqn:Hv;
    autorewrite with run; rewrite Hev; simpl errorOf.
  - destruct (request_value _ _ _ _ Hv) as (data & Hraw & Hdec).
    set (scan := scanDatabases dbs true _).
    destruct (only_scan_requestPaths _ (scanDatabases_only_scan dbs true _) :
                requestPaths (filter isScanRequest (events scan)) =
                  requestPaths (events scan) /\ _) as [P1 P2].
    destruct (scanDatabases_requests dbs true _ : let evs := events scan in _)
      as (_ & _ & P3).
    exists (tidbClient_SendGetRequest "/schema" (world s)).1, None,
           (filter isScanRequest (events scan)).
    split; [done|]. split; [exact P2|].
    exists data, dbs. split; [exact Hraw|]. split; [exact Hdec|].
    split; [by rewrite P1, P3|done].
  - exists (tidbClient_SendGetRequest "/schema" (world s)).1, (Some e), [].
    by repeat split.
Qed.

(** The requests a cycle sends to the schema endpoints are those of its
    full scan, if it ran one. *)
Lemma updateMap_scan_requests s :
  filter isScanRequest (events (updateMap s)) = [] \/
  exists schemaVersion s1,
    fetchedVersion s = Some schemaVersion /\
    filter isScanRequest (events (updateMap s)) =
      filter isScanRequest (events (fullScan schemaVersion s1)).
Proof.
  rewrite updateMap_run. cbv zeta.
  destruct (fetchedVersion s) as [v|]; [|left; by autorewrite with run].
  destruct (v =? SchemaVersion (strategy s))%Z;
    [left; by autorewrite with run|].
  set (s0 := mkSystem (strategy s) (EtcdClient_Get schemaVersionPath (world s)).2).
  destruct (batchAttempt_spec v s0) as (_ & _ & _ & _ & Sb & _).
  assert (forall evs, filter isScanRequest (EvEtcdGet schemaVersionPath :: evs) =
                      filter isScanRequest evs) as Hfs by done.
  destruct (value (batchAttempt v s0)); autorewrite with run; rewrite Hfs.
  - left. exact Sb.
  - right. exists v, (final (batchAttempt v s0)).
    split; [done|]. by rewrite filter_app, Sb.
Qed.

(** C1. The version marker after a cycle is the fetched version exactly
    when a fetch strategy fully succeeded in the cycle: the batched
    requests (one at least, none failed) or the requests of the full scan
    (none failed); otherwise it is the marker as it was. If a batched
    request failed, the batched path has not committed, the full scan was
    run in the same cycle, and the marker is the fetched version exactly
    when the full scan succeeded. The requests of the full scan of a cycle
    are the request of the database list and, when that list was fetched
    and decoded, exactly one request of the table list for each database
    of it that is not in [StateNone], in order; the full scan has succeeded
    exactly when the list was fetched and none of these requests returned
    an error. *)
Theorem C1_version_commit_gating s :
  let r := updateMap s in
  let old := SchemaVersion (strategy s) in
  SchemaVersion (strategy (final r)) =
    match fetchedVersion s with
    | Some schemaVersion =>
        if succeeded (filter isBatchRequest (events r)) ||
           succeeded (filter isScanRequest (events r))
        then schemaVersion else old
    | None => old
    end /\
  (allOk (filter isBatchRequest (events r)) = false ->
   succeeded (filter isBatchRequest (events r)) = false /\
   In "/schema"%string (requestPaths (events r)) /\
   exists schemaVersion,
     fetchedVersion s = Some schemaVersion /\
     SchemaVersion (strategy (final r)) =
       if succeeded (filter isScanRequest (events r))
       then schemaVersion else old) /\
  (filter isScanRequest (events r) = [] \/
   exists raw err rest,
     filter isScanRequest (events r) = EvRequest "/schema" raw err :: rest /\
     Forall (fun e => isRequest e = true) rest /\
     match err with
     | Some _ =>
         rest = [] /\ succeeded (filter isScanRequest (events r)) = false
     | None =>
         exists data dbInfos,
           raw = Ok data /\ Unmarshal_DBInfos data = Ok dbInfos /\
           requestPaths rest =
             map (fun db => schemaDBPath (CIStr.O (DBInfo.Name db)))
               (filter (fun db => DBInfo.State db <> model.StateNone)
                  dbInfos) /\
           succeeded (filter isScanRequest (events r)) = allOk rest
     end).
Proof.
  cbv zeta. destruct (updateMap_spec s) as (_ & _ & _ & V).
  split; [exact V|]. split.
  - intros Hfail.
    destruct (updateMap_fallback s Hfail)
      as (v & s1 & evs1 & Hv & Hs & Hb & He & _).
    rewrite Hv in V. rewrite Hb, Hs in V |- *. simpl in V.
    split; [reflexivity|]. split; [|eauto].
    rewrite He, requestPaths_etcd, requestPaths_app.
    destruct (fullScan_spec v s1)
      as (_ & _ & _ & _ & _ & _ & _ & raw & err & rest & ->).
    apply in_or_app. right. by left.
  - destruct (updateMap_scan_requests s) as [E|(v & s1 & _ & E)]; [by left|].
    right. rewrite E. apply fullScan_scan_requests.
Qed.

Lemma cycles_S n s :
  cycles (S n) s =
  ((cycles n (final (updateMap s))).1,
   events (updateMap s) ++ (cycles n (final (updateMap s))).2).
Proof. simpl. by destruct (cycles n (final (updateMap s))). Qed.

Lemma updateMap_flag_set s :
  dbTableInfosEndpointNotFound (strategy s) = true ->
  filter isBatchRequest (events (updateMap s)) = [].
Proof.
  intros Hf. rewrite updateMap_run. cbv zeta.
  destruct (fetchedVersion s) as [v|]; [|by autorewrite with run].
  destruct (v =? SchemaVersion (strategy s))%Z; [by autorewrite with run|].
  set (s0 := mkSystem (strategy s) (EtcdClient_Get schemaVersionPath (world s)).2).
  destruct (batchAttempt_spec v s0) as (_ & _ & _ & _ & _ & _ & _ & E).
  specialize (E Hf).
  destruct (fullScan_spec v (final (batchAttempt v s0)))
    as (_ & _ & _ & _ & B2 & _).
  destruct (value (batchAttempt v s0)); autorewrite with run;
    rewrite filter_batch_etcd, ?filter_app, E, ?B2; reflexivity.
Qed.

End CycleClaims.

Section GateClaims.
Context {W : Type} `{Cluster W}.
Implicit Types (s : System W) (evs : list Event).

(** A cycle that is eligible for the batched strategy sends the batches of
    the known identifiers, one after the other, up to the first failure. *)
Lemma updateMap_batched s provider schemaVersion :
  dbTableInfosEndpointNotFound (strategy s) = false ->
  getTableIDs (strategy s) = Some provider ->
  fetchedVersion s = Some schemaVersion ->
  schemaVersion <> SchemaVersion (strategy s) ->
  (provider (EtcdClient_Get schemaVersionPath (world s)).2).1 <> [] ->
  let batches :=
    makeBatches (provider (EtcdClient_Get schemaVersionPath (world s)).2).1 in
  let reqs := filter isBatchRequest (events (updateMap s)) in
  exists k,
    (1 <= k <= length batches)%nat /\
    requestPaths reqs = map dbTablePath (take k batches) /\
    if allOk reqs
    then k = length batches /\ requestErrors reqs = replicate k None
    else exists err, requestErrors reqs = replicate (pred k) None ++ [Some err].
Proof.
  intros Hf Hg Hv Hne Hids. cbv zeta.
  set (w0 := (EtcdClient_Get schemaVersionPath (world s)).2) in *.
  set (bs := makeBatches (provider w0).1).
  set (s1 := mkSystem (strategy s) (provider w0).2).
  assert (filter isBatchRequest (events (updateMap s)) =
          filter isBatchRequest (events (requestBatches bs s1))) as ->.
  { rewrite updateMap_run. cbv zeta. rewrite Hv.
    destruct (Z.eqb_spec schemaVersion (SchemaVersion (strategy s))); [done|].
    rewrite batchAttempt_run. cbn [strategy world]. rewrite Hg, Hf. cbv zeta.
    fold w0. destruct (Nat.eqb_spec (length (provider w0).1) 0) as [Hz|_].
    { destruct (provider w0).1; [done|discriminate]. }
    fold bs s1.
    destruct (value (requestBatches bs s1)); autorewrite with run.
    - done.
    - destruct (fullScan_spec schemaVersion (final (requestBatches bs s1)))
        as (_ & _ & _ & _ & B2 & _).
      rewrite filter_batch_etcd, filter_app, B2, app_nil_r. done. }
  destruct (requestBatches_requests bs s1) as (_ & _ & S3 & k & K1 & K2 & K3 & K4).
  destruct (only_batch_requestPaths _ (requestBatches_only_batch bs s1)) as [P1 P2].
  pose proof (makeBatches_nonempty _ Hids) as Hbs. fold bs in Hbs.
  exists k. rewrite P1, P2, S3. split; [|split; [exact K1|exact K4]].
  specialize (K3 Hbs). lia.
Qed.

(** [n] cycles of a strategy whose capability flag is set. *)
Lemma cycles_flag_set n s :
  dbTableInfosEndpointNotFound (strategy s) = true ->
  dbTableInfosEndpointNotFound (strategy (cycles n s).1) = true /\
  filter isBatchRequest (cycles n s).2 = [].
Proof.
  revert s. induction n as [|n IH]; intros s Hf; [done|].
  rewrite cycles_S. cbn [fst snd].
  destruct (updateMap_spec s) as (_ & F & _).
  rewrite Hf in F. simpl in F.
  destruct (IH _ F) as [I1 I2].
  split; [exact I1|]. by rewrite filter_app, I2, (updateMap_flag_set s Hf).
Qed.

Lemma coherent_stores evs :
  Forall (fun e => isStore e = true) evs -> Forall coherent evs.
Proof.
  intros Hst. eapply Forall_impl; [exact Hst|].
  intros e He. by destruct e.
Qed.

Lemma request_coherent {T} (unmarshal : string -> result T) path s :
  Forall coherent (events (request unmarshal path s)).
Proof.
  unfold request, events.
  destruct (tidbClient_SendGetRequest path (world s)) as [[data|msg] w];
    by repeat constructor.
Qed.

Lemma requestBatches_coherent bs s :
  Forall coherent (events (requestBatches bs s)).
Proof.
  revert s. induction bs as [|b bs IH]; intros s; [constructor|].
  rewrite requestBatches_cons. cbv zeta.
  destruct (value (request Unmarshal_DBTableInfos (dbTablePath b) s))
    as [infos|err]; autorewrite with run.
  - apply Forall_app. split; [apply request_coherent|].
    apply Forall_app. split; [|apply IH].
    apply coherent_stores, storesOnly_dbTableStores.
  - apply request_coherent.
Qed.

Lemma scanDatabases_coherent dbs b s :
  Forall coherent (events (scanDatabases dbs b s)).
Proof.
  revert b s. induction dbs as [|db dbs IH]; intros b s; [constructor|].
  rewrite scanDatabases_cons.
  destruct (decide (DBInfo.State db = model.StateNone)); [apply IH|].
  cbv zeta.
  destruct (value (request Unmarshal_TableInfos _ s)) as [ts|err];
    autorewrite with run.
  - apply Forall_app. split; [apply request_coherent|].
    apply Forall_app. split; [|apply IH].
    apply coherent_stores, storesOnly_tables.
  - apply Forall_app. split; [apply request_coherent|apply IH].
Qed.

Lemma updateMap_coherent s : Forall coherent (events (updateMap s)).
Proof.
  assert (forall v s', Forall coherent (events (fullScan v s'))) as Hs.
  { intros v s'. rewrite fullScan_run. cbv zeta.
    destruct (value (request Unmarshal_DBInfos "/schema" s'));
      autorewrite with run; [|apply request_coherent].
    apply Forall_app. split; [apply request_coherent|].
    apply scanDatabases_coherent. }
  assert (forall v s', Forall coherent (events (batchAttempt v s'))) as Hb.
  { intros v s'. rewrite batchAttempt_run.
    destruct (getTableIDs (strategy s')); [|by autorewrite with run].
    destruct (dbTableInfosEndpointNotFound (strategy s'));
      [by autorewrite with run|].
    cbv zeta. destruct (Nat.eqb _ 0);
      [autorewrite with run; by repeat constructor|].
    destruct (value (requestBatches _ _)); autorewrite with run;
      (constructor; [done|apply requestBatches_coherent]). }
  rewrite updateMap_run. cbv zeta.
  destruct (fetchedVersion s) as [v|];
    [|autorewrite with run; by repeat constructor].
  destruct (v =? SchemaVersion (strategy s))%Z;
    [autorewrite with run; by repeat constructor|].
  destruct (value (batchAttempt v _)); autorewrite with run;
    (constructor; [done|]); [apply Hb|].
  apply Forall_app. split; [apply Hb|apply Hs].
Qed.

(** On the requests [request] emits, the test of line 88 holds for the
    not-found signal of the transport and for a decoding error whose text
    contains 404, and for nothing else. *)
Lemma coherent_returned404 evs :
  Forall coherent evs ->
  returned404 evs = transportNotFound evs || decodeNotFound evs.
Proof.
  induction 1 as [|e evs He _ IH]; [done|].
  simpl. rewrite IH.
  destruct e as [key| |path [data|msg] [err|]|id d]; simpl; try done.
  - by destruct (_ && _), (transportNotFound evs), (decodeNotFound evs).
  - injection He as ->.
    by destruct (_ && _), (transportNotFound evs), (decodeNotFound evs).
Qed.

(** C2, as the code has it. After a cycle the capability flag is set
    exactly when it was set before, or the transport answered a request to
    the combined endpoint with the not-found signal (an error whose text
    contains 404), or a request to the combined endpoint that the transport
    answered failed on its body with a decoding error whose wrapped text
    contains 404: the test of line 88 reads the text of whatever error
    [request] returned. Once the flag is set, any number of cycles later
    it is still set and none of those cycles has sent a request to the
    combined endpoint. While it is unset (as a failure whose text does not
    contain 404 leaves it), a cycle that sees a changed version and a set
    of known identifiers that is not empty sends a batched request. *)
Theorem C2_capability_flag_sticky s :
  let r := updateMap s in
  dbTableInfosEndpointNotFound (strategy (final r)) =
    dbTableInfosEndpointNotFound (strategy s) ||
    (transportNotFound (events r) || decodeNotFound (events r)) /\
  (transportNotFound (events r) = true ->
   dbTableInfosEndpointNotFound (strategy (final r)) = true) /\
  (dbTableInfosEndpointNotFound (strategy s) = false ->
   returned404 (events r) = false ->
   dbTableInfosEndpointNotFound (strategy (final r)) = false) /\
  (dbTableInfosEndpointNotFound (strategy s) = true ->
   forall n,
     dbTableInfosEndpointNotFound (strategy (cycles n s).1) = true /\
     filter isBatchRequest (cycles n s).2 = []) /\
  (dbTableInfosEndpointNotFound (strategy s) = false ->
   forall provider schemaVersion,
     getTableIDs (strategy s) = Some provider ->
     fetchedVersion s = Some schemaVersion ->
     schemaVersion <> SchemaVersion (strategy s) ->
     (provider (EtcdClient_Get schemaVersionPath (world s)).2).1 <> [] ->
     filter isBatchRequest (events r) <> []).
Proof.
  cbv zeta. destruct (updateMap_spec s) as (_ & F & _).
  pose proof (coherent_returned404 _ (updateMap_coherent s)) as E.
  split; [by rewrite F, E|]. split.
  { intros Ht. rewrite F, E, Ht. by rewrite orb_true_r. }
  split.
  { intros Hf Hn. by rewrite F, Hf, Hn. }
  split.
  - intros Hf n. by apply cycles_flag_set.
  - intros Hf provider v Hg Hv Hne Hids.
    destruct (updateMap_batched s provider v Hf Hg Hv Hne Hids)
      as (k & Hk & Hp & _).
    intros E'. rewrite E' in Hp. simpl in Hp.
    destruct k; [lia|].
    destruct (makeBatches _); [simpl in Hk; lia|discriminate].
Qed.

(** C3. If the version check fails (etcd returns an error, or not exactly
    one key-value, or a value that does not parse) or the fetched version
    is the stored one, the cycle changes nothing of the strategy and does
    nothing but the etcd read: no request, no call of the identifier
    provider, no store. *)
Theorem C3_version_gate_no_mutation s :
  let answer := (EtcdClient_Get schemaVersionPath (world s)).1 in
  ((exists err, answer = Err err) \/
   (exists resp, answer = Ok resp /\ length (GetResponse.Kvs resp) <> 1%nat) \/
   (exists resp kv,
      answer = Ok resp /\ GetResponse.Kvs resp = [kv] /\
      (ParseInt (KeyValue.Value kv) = None \/
       ParseInt (KeyValue.Value kv) = Some (SchemaVersion (strategy s))))) ->
  strategy (final (updateMap s)) = strategy s /\
  events (updateMap s) = [EvEtcdGet schemaVersionPath] /\
  filter isStore (events (updateMap s)) = [] /\
  filter isRequest (events (updateMap s)) = [] /\
  world (final (updateMap s)) = (EtcdClient_Get schemaVersionPath (world s)).2.
Proof.
  cbv zeta. intros Hc.
  assert (fetchedVersion s = None \/
          fetchedVersion s = Some (SchemaVersion (strategy s))) as Hv.
  { unfold fetchedVersion, checkedVersion.
    destruct Hc as [[err ->]|[(resp & -> & Hl)|(resp & kv & -> & Hk & Hp)]].
    - by left.
    - left. by destruct (GetResponse.Kvs resp) as [|kv [|kv' kvs]].
    - rewrite Hk. destruct Hp as [-> | ->]; auto. }
  rewrite updateMap_run. cbv zeta.
  destruct Hv as [-> | ->]; [by autorewrite with run|].
  rewrite Z.eqb_refl. by autorewrite with run.
Qed.


End GateClaims.

(** * The batches of the known identifiers *)

Section BatchClaims.
Context {W : Type} `{Cluster W}.
Implicit Types (s : System W) (evs : list Event).

(** C5, as the code has it. The known identifiers, when there are some, are
    cut into full batches of [tableInfosBatchSize] (512) and one last batch
    with what is left (a full batch when nothing is left over); the batches
    in order hold the identifiers in order, each once; there are
    ceil(n/512) of them. A cycle that is eligible for the batched strategy
    sends one request per batch, in order, and stops at the first that
    fails: ceil(n/512) requests if none fails, fewer if one fails before
    the last. *)
Theorem C5_batches_and_requests s provider schemaVersion :
  dbTableInfosEndpointNotFound (strategy s) = false ->
  getTableIDs (strategy s) = Some provider ->
  fetchedVersion s = Some schemaVersion ->
  schemaVersion <> SchemaVersion (strategy s) ->
  let ids := (provider (EtcdClient_Get schemaVersionPath (world s)).2).1 in
  ids <> [] ->
  let batches := makeBatches ids in
  let reqs := filter isBatchRequest (events (updateMap s)) in
  (exists full last,
     batches = full ++ [last] /\
     Forall (fun b => length b = tableInfosBatchSize) full /\
     (1 <= length last <= tableInfosBatchSize)%nat /\
     (length last = length ids - tableInfosBatchSize * length full)%nat) /\
  concat batches = map FormatInt ids /\
  (NoDup ids -> NoDup (concat batches)) /\
  length batches =
    ((length ids + (tableInfosBatchSize - 1)) / tableInfosBatchSize)%nat /\
  exists k,
    (1 <= k <= length batches)%nat /\
    requestPaths reqs = map dbTablePath (take k batches) /\
    if allOk reqs
    then k = length batches /\ requestErrors reqs = replicate k None
    else exists err, requestErrors reqs = replicate (pred k) None ++ [Some err].
Proof.
  intros Hf Hg Hv Hne. cbv zeta. intros Hids.
  destruct (makeBatches_shape _ Hids) as (full & last & E & F & L1 & L2 & C).
  split; [by exists full, last|]. split; [exact C|]. split.
  - intros Hnd. rewrite C.
    change (NoDup (FormatInt <$>
                     (provider (EtcdClient_Get schemaVersionPath (world s)).2).1)).
    apply NoDup_fmap_2; [|exact Hnd]. intros i j. apply FormatInt_inj.
  - split; [apply makeBatches_length|].
    by apply (updateMap_batched s provider schemaVersion).
Qed.

End BatchClaims.

(** * The label builders *)

Section BuilderClaims.
Context {W : Type} `{Cluster W}.
Implicit Types (s : System W) (evs : list Event).



(** C10. For a database name and a table description, the builder of the
    batched path, applied to one combined description of the two, and the
    builder of the full-scan path, applied to the name and the list of the
    one table, do the same stores and leave the same system. *)
Theorem C10_builders_agree dbname state (table : TableInfo.t) key s :
  updateTableMapByDBTableInfos
    [(key, DBTableInfo.mk (DBInfo.mk (CIStr.mk dbname) state) table)] s =
  updateTableMap dbname [table] s.
Proof.
  rewrite updateTableMapByDBTableInfos_run, updateTableMap_run. reflexivity.
Qed.

End BuilderClaims.

(** * The full scan *)

Section ScanClaims.
Context {W : Type} `{Cluster W}.
Implicit Types (s : System W) (evs : list Event).

(** C7. A database in [StateNone] is skipped: the scan of a list of
    databases with such a database in it runs as the scan of the list
    without it (the same requests, the same stores, the same system, the
    same success flag), and so does the full scan whose database list has
    it; the table lists requested are those of the databases not in
    [StateNone]. *)
Theorem C7_dropped_database_skipped pre (db : DBInfo.t) post updateSuccess
  schemaVersion s :
  DBInfo.State db = model.StateNone ->
  scanDatabases (pre ++ db :: post) updateSuccess s =
    scanDatabases (pre ++ post) updateSuccess s /\
  requestPaths (events (scanDatabases (pre ++ db :: post) updateSuccess s)) =
    map (fun db => schemaDBPath (CIStr.O (DBInfo.Name db)))
      (filter (fun db => DBInfo.State db <> model.StateNone) (pre ++ post)) /\
  (value (request Unmarshal_DBInfos "/schema" s) = Ok (pre ++ db :: post) ->
   let s1 := final (request Unmarshal_DBInfos "/schema" s) in
   let scan := scanDatabases (pre ++ post) true s1 in
   events (fullScan schemaVersion s) =
     events (request Unmarshal_DBInfos "/schema" s) ++ events scan /\
   final (fullScan schemaVersion s) =
     if value scan then final (setSchemaVersion schemaVersion (final scan))
     else final scan).
Proof.
  intros Hn.
  assert (forall b s', scanDatabases (pre ++ db :: post) b s' =
                       scanDatabases (pre ++ post) b s') as E.
  { intros b s'. rewrite !scanDatabases_app. cbv zeta.
    rewrite scanDatabases_cons.
    by destruct (decide (DBInfo.State db = model.StateNone)). }
  split; [apply E|]. split.
  - rewrite E. apply scanDatabases_requests.
  - intros Hv. cbv zeta. rewrite fullScan_run. cbv zeta. rewrite Hv, E.
    by autorewrite with run.
Qed.

(** C8. In a full scan whose database list was fetched, when the request
    of the table list of a database fails: that request stores nothing and
    leaves the strategy, and so the lookup, as it was; the scan goes on
    with the databases after it, with one request for each that is not in
    [StateNone]; the success flag of the scan is false, and the version
    marker after the full scan is the one before it. *)
Theorem C8_failed_database_skipped pre (db : DBInfo.t) post schemaVersion
  err s :
  value (request Unmarshal_DBInfos "/schema" s) = Ok (pre ++ db :: post) ->
  DBInfo.State db <> model.StateNone ->
  let s1 := final (request Unmarshal_DBInfos "/schema" s) in
  let before := scanDatabases pre true s1 in
  let failed :=
    request Unmarshal_TableInfos (schemaDBPath (CIStr.O (DBInfo.Name db)))
      (final before) in
  value failed = Err err ->
  let remaining := scanDatabases post false (final failed) in
  strategy (final failed) = strategy (final before) /\
  filter isStore (events failed) = [] /\
  events (fullScan schemaVersion s) =
    events (request Unmarshal_DBInfos "/schema" s) ++
    events before ++ events failed ++ events remaining /\
  final (fullScan schemaVersion s) = final remaining /\
  requestPaths (events remaining) =
    map (fun db => schemaDBPath (CIStr.O (DBInfo.Name db)))
      (filter (fun db => DBInfo.State db <> model.StateNone) post) /\
  TableMap (strategy (final (fullScan schemaVersion s))) =
    replay (events remaining) (TableMap (strategy (final before))) /\
  value (scanDatabases (pre ++ db :: post) true s1) = false /\
  SchemaVersion (strategy (final (fullScan schemaVersion s))) =
    SchemaVersion (strategy s).
Proof.
  intros Hv Hn. cbv zeta. intros Hfail.
  set (s1 := final (request Unmarshal_DBInfos "/schema" s)) in *.
  set (before := scanDatabases pre true s1) in *.
  set (failed := request Unmarshal_TableInfos
                   (schemaDBPath (CIStr.O (DBInfo.Name db))) (final before)) in *.
  set (remaining := scanDatabases post false (final failed)) in *.
  assert (scanDatabases (pre ++ db :: post) true s1 =
          (value remaining, final remaining,
           events before ++ events failed ++ events remaining)) as E.
  { rewrite scanDatabases_app. cbv zeta. fold before.
    rewrite scanDatabases_cons.
    destruct (decide (DBInfo.State db = model.StateNone)); [done|].
    cbv zeta. fold failed. rewrite Hfail. fold remaining.
    by autorewrite with run. }
  assert (value remaining = false) as Hval.
  { unfold remaining. by rewrite scanDatabases_value. }
  assert (strategy (final failed) = strategy (final before)) as Hst
    by apply request_strategy.
  assert (fullScan schemaVersion s =
          (tt, final remaining,
           events (request Unmarshal_DBInfos "/schema" s) ++
           events before ++ events failed ++ events remaining)) as Efull.
  { rewrite fullScan_run. cbv zeta. rewrite Hv. fold s1. rewrite E.
    autorewrite with run. by rewrite Hval. }
  destruct (scanDatabases_evolves post false (final failed)) as (_ & V3 & T3 & _).
  destruct (scanDatabases_evolves pre true s1) as (_ & V1 & _).
  fold remaining in V3, T3. fold before in V1.
  rewrite Efull, E. autorewrite with run.
  split; [exact Hst|]. split.
  { unfold failed. by rewrite request_events. }
  split; [reflexivity|]. split; [reflexivity|]. split.
  { apply scanDatabases_requests. }
  split; [by rewrite T3, Hst|]. split; [exact Hval|].
  rewrite V3, Hst, V1. unfold s1. by rewrite request_strategy.
Qed.

End ScanClaims.

(** * The lookup only grows *)

Section GrowthClaims.
Context {W : Type} `{Cluster W}.
Implicit Types (s : System W) (evs seen : list Event).

Lemma fetched_mono seen seen' k :
  (forall e, In e seen -> In e seen') -> fetched seen k -> fetched seen' k.
Proof.
  intros Hincl (path & data & err & Hin & Hd).
  exists path, data, err. split; [by apply Hincl|exact Hd].
Qed.

Lemma justifiedFrom_mono seen seen' evs :
  (forall e, In e seen -> In e seen') ->
  justifiedFrom seen evs -> justifiedFrom seen' evs.
Proof.
  revert seen seen'. induction evs as [|e evs IH]; intros seen seen' Hincl; [done|].
  simpl. intros [He Hrest]. split.
  - destruct e; try done. destruct He as [E F]. split; [exact E|].
    by apply (fetched_mono seen).
  - apply (IH (seen ++ [e])); [|exact Hrest].
    intros x Hx. apply in_app_or in Hx as [Hx|Hx]; apply in_or_app; auto.
Qed.

Lemma justifiedFrom_app seen evs1 evs2 :
  justifiedFrom seen evs1 -> justifiedFrom (seen ++ evs1) evs2 ->
  justifiedFrom seen (evs1 ++ evs2).
Proof.
  revert seen. induction evs1 as [|e evs1 IH]; intros seen H1 H2.
  - by rewrite app_nil_r in H2.
  - destruct H1 as [He H1]. simpl. split; [exact He|].
    apply IH; [exact H1|]. by rewrite <- app_assoc.
Qed.

Lemma justifiedFrom_stores seen evs :
  Forall (fun e => match e with
                   | EvStore k d => k = tableDetail.ID d /\ fetched seen k
                   | _ => True
                   end) evs ->
  justifiedFrom seen evs.
Proof.
  revert seen. induction evs as [|e evs IH]; intros seen Hall; [done|].
  apply Forall_cons in Hall as [He Hall]. simpl. split; [exact He|].
  apply IH. eapply Forall_impl; [exact Hall|].
  intros x Hx. destruct x; try done. destruct Hx as [E F]. split; [exact E|].
  apply (fetched_mono seen); [|exact F]. intros y Hy. apply in_or_app. by left.
Qed.

Lemma tableStores_keys dbname table k d :
  In (EvStore k d) (tableStores dbname table) ->
  k = tableDetail.ID d /\ In k (tableIdents table).
Proof.
  unfold tableStores, tableIdents. intros [[= <- <-]|Hin].
  - split; [reflexivity|by left].
  - destruct (TableInfo.GetPartitionInfo table) as [partition|]; [|done].
    apply in_map_iff in Hin as (def & [= <- <-] & Hdef).
    split; [reflexivity|]. right. by apply in_map.
Qed.

Lemma justifiedFrom_requestBatches seen bs s :
  justifiedFrom seen (events (requestBatches bs s)).
Proof.
  revert seen s. induction bs as [|b bs IH]; intros seen s; [done|].
  rewrite requestBatches_cons. cbv zeta.
  destruct (value (request Unmarshal_DBTableInfos (dbTablePath b) s))
    as [infos|err] eqn:Hv; autorewrite with run; rewrite request_events, Hv.
  - destruct (request_value _ _ _ _ Hv) as (data & Hraw & Hdec). rewrite Hraw.
    simpl. split; [done|].
    apply justifiedFrom_app; [|apply IH].
    apply justifiedFrom_stores, Forall_forall. intros e He.
    apply list_elem_of_In in He.
    destruct e as [| | |k d]; try done.
    unfold dbTableStores in He. apply in_flat_map in He as (kv & Hkv & Hst).
    destruct (tableStores_keys _ _ _ _ Hst) as [E Hk]. split; [exact E|].
    exists (dbTablePath b), data, None. split; [apply in_or_app; right; by left|].
    right. by exists infos, kv.
  - simpl. done.
Qed.

Lemma justifiedFrom_scanDatabases seen dbs b s :
  justifiedFrom seen (events (scanDatabases dbs b s)).
Proof.
  revert seen b s. induction dbs as [|db dbs IH]; intros seen b s; [done|].
  rewrite scanDatabases_cons.
  destruct (decide (DBInfo.State db = model.StateNone)); [apply IH|].
  cbv zeta.
  destruct (value (request Unmarshal_TableInfos _ s)) as [ts|err] eqn:Hv;
    autorewrite with run; rewrite request_events, Hv.
  - destruct (request_value _ _ _ _ Hv) as (data & Hraw & Hdec). rewrite Hraw.
    simpl. split; [done|].
    apply justifiedFrom_app; [|apply IH].
    apply justifiedFrom_stores, Forall_forall. intros e He.
    apply list_elem_of_In in He.
    destruct e as [| | |k d]; try done.
    apply in_flat_map in He as (t & Ht & Hst).
    destruct (tableStores_keys _ _ _ _ Hst) as [E Hk]. split; [exact E|].
    exists (schemaDBPath (CIStr.O (DBInfo.Name db))), data, None.
    split; [apply in_or_app; right; by left|]. left. by exists ts, t.
  - simpl. split; [done|apply IH].
Qed.

Lemma justifiedFrom_updateMap seen s :
  justifiedFrom seen (events (updateMap s)).
Proof.
  rewrite updateMap_run. cbv zeta.
  destruct (fetchedVersion s) as [v|]; [|by autorewrite with run].
  destruct (v =? SchemaVersion (strategy s))%Z; [by autorewrite with run|].
  set (s0 := mkSystem (strategy s) (EtcdClient_Get schemaVersionPath (world s)).2).
  assert (forall seen', justifiedFrom seen' (events (batchAttempt v s0))) as Hb.
  { intros seen'. rewrite batchAttempt_run.
    destruct (getTableIDs (strategy s0)); [|by autorewrite with run].
    destruct (dbTableInfosEndpointNotFound (strategy s0));
      [by autorewrite with run|].
    cbv zeta. destruct (Nat.eqb _ 0); [by autorewrite with run|].
    destruct (value (requestBatches _ _)); autorewrite with run;
      (split; [done|apply justifiedFrom_requestBatches]). }
  assert (forall seen' s', justifiedFrom seen' (events (fullScan v s'))) as Hs.
  { intros seen' s'. rewrite fullScan_run. cbv zeta.
    destruct (value (request Unmarshal_DBInfos "/schema" s')) eqn:Hv;
      autorewrite with run; rewrite request_events, Hv.
    - split; [done|apply justifiedFrom_scanDatabases].
    - by simpl. }
  destruct (value (batchAttempt v s0)); autorewrite with run;
    (split; [done|]); [apply Hb|].
  apply justifiedFrom_app; [apply Hb|apply Hs].
Qed.

Lemma justifiedFrom_justified evs : justifiedFrom [] evs -> justified evs.
Proof.
  intros Hj before k d after ->.
  assert (forall seen, justifiedFrom seen (before ++ EvStore k d :: after) ->
                       k = tableDetail.ID d /\ fetched (seen ++ before) k) as Hgen.
  { clear. induction before as [|e before IH]; intros seen Hj.
    - rewrite app_nil_r. by destruct Hj.
    - destruct Hj as [_ Hj]. destruct (IH _ Hj) as [E F]. split; [exact E|].
      by rewrite <- app_assoc in F. }
  exact (Hgen [] Hj).
Qed.

(** C9. A refresh cycle changes the lookup by its stores alone, each an
    insertion or an overwrite: the lookup after the cycle is the lookup
    before it with the stores of the cycle applied in order; every
    identifier bound before is bound after; a binding that has changed was
    stored in the cycle; and every store of the cycle is keyed by the
    identifier of the entry stored, an identifier of a description fetched
    earlier in the cycle. The same holds of each builder on its own. *)
Theorem C9_lookup_only_grows s :
  let r := updateMap s in
  TableMap (strategy (final r)) = replay (events r) (TableMap (strategy s)) /\
  dom (TableMap (strategy s)) ⊆ dom (TableMap (strategy (final r))) /\
  (forall k, is_Some (TableMap (strategy s) !! k) ->
             is_Some (TableMap (strategy (final r)) !! k)) /\
  (forall k, TableMap (strategy (final r)) !! k <> TableMap (strategy s) !! k ->
             exists d, In (EvStore k d) (events r)) /\
  justified (events r) /\
  (forall dbname tableInfos,
     dom (TableMap (strategy s)) ⊆
     dom (TableMap (strategy (final (updateTableMap dbname tableInfos s))))) /\
  (forall dbTableInfos,
     dom (TableMap (strategy s)) ⊆
     dom (TableMap (strategy
                      (final (updateTableMapByDBTableInfos dbTableInfos s))))).
Proof.
  cbv zeta. destruct (updateMap_spec s) as (_ & _ & T & _).
  rewrite T. split; [reflexivity|]. split; [apply replay_keys|].
  split; [intros k; apply replay_lookup_mono|].
  split; [intros k; apply replay_changed|].
  split; [apply justifiedFrom_justified, justifiedFrom_updateMap|]. split.
  - intros dbname ts. rewrite updateTableMap_run. autorewrite with run.
    apply replay_keys.
  - intros infos. rewrite updateTableMapByDBTableInfos_run. autorewrite with run.
    apply replay_keys.
Qed.

End GrowthClaims.

(** * The claims on the test cluster *)

Lemma C1_witness :
  let r := @updateMap nat Demo.flakyCluster Demo.first517 in
  allOk (filter isBatchRequest (events r)) = false /\
  In "/schema"%string (requestPaths (events r)) /\
  SchemaVersion (strategy (final r)) = 7 /\
  requestPaths (filter isScanRequest (events r)) =
    ["/schema"; "/schema/shop"; "/schema/auth"]%string.
Proof.
  cbv zeta.
  assert (allOk (filter isBatchRequest
                   (events (@updateMap nat Demo.flakyCluster Demo.first517)))
          = false) as Hfail by (vm_compute; reflexivity).
  destruct (proj1 (proj2 (@C1_version_commit_gating nat Demo.flakyCluster
                            Demo.first517)) Hfail)
    as (_ & Hin & v & Hv & HV).
  split; [exact Hfail|]. split; [exact Hin|]. split.
  - rewrite HV. vm_compute in Hv. injection Hv as <-. vm_compute. reflexivity.
  - vm_compute. reflexivity.
Defined.

Lemma C2_counterexample :
  let r := @updateMap nat Demo.garbledCluster Demo.first517 in
  dbTableInfosEndpointNotFound (strategy Demo.first517) = false /\
  transportAnswered (events r) = true /\
  transportNotFound (events r) = false /\
  dbTableInfosEndpointNotFound (strategy (final r)) = true.
Proof.
  cbv zeta. split; [reflexivity|]. split; [vm_compute; reflexivity|].
  split; vm_compute; reflexivity.
Qed.

Lemma C2_witness :
  let once := @updateMap nat Demo.legacyCluster Demo.first517 in
  dbTableInfosEndpointNotFound (strategy Demo.first517) = false /\
  transportNotFound (events once) = true /\
  dbTableInfosEndpointNotFound (strategy (final once)) = true /\
  dbTableInfosEndpointNotFound
    (strategy (@cycles nat Demo.legacyCluster 3 (final once)).1) = true /\
  filter isBatchRequest (@cycles nat Demo.legacyCluster 3 (final once)).2 = [] /\
  length (filter isScanRequest
            (@cycles nat Demo.legacyCluster 3 (final once)).2) = 9%nat /\
  filter isBatchRequest
    (events (@updateMap nat Demo.healthyCluster Demo.first517)) <> [].
Proof.
  cbv zeta.
  assert (transportNotFound
            (events (@updateMap nat Demo.legacyCluster Demo.first517)) = true)
    as Ht by (vm_compute; reflexivity).
  pose proof (proj1 (proj2 (@C2_capability_flag_sticky nat Demo.legacyCluster
                              Demo.first517)) Ht) as Hset.
  destruct (proj1 (proj2 (proj2 (proj2
              (@C2_capability_flag_sticky nat Demo.legacyCluster
                 (final (@updateMap nat Demo.legacyCluster Demo.first517))))))
              Hset 3%nat) as [Hkeep Hnone].
  split; [reflexivity|]. split; [exact Ht|]. split; [exact Hset|].
  split; [exact Hkeep|]. split; [exact Hnone|].
  split; [vm_compute; reflexivity|].
  apply (proj2 (proj2 (proj2 (proj2
           (@C2_capability_flag_sticky nat Demo.healthyCluster Demo.first517))))
           eq_refl (fun w => (Demo.ids517, w)) 7 eq_refl).
  - vm_compute. reflexivity.
  - simpl. lia.
  - vm_compute. discriminate.
Defined.

Lemma C3_witness :
  let once := final (@updateMap nat Demo.healthyCluster Demo.first517) in
  let twice := @updateMap nat Demo.healthyCluster once in
  SchemaVersion (strategy once) = 7 /\
  strategy (final twice) = strategy once /\
  events twice = [EvEtcdGet schemaVersionPath] /\
  filter isStore (events twice) = [].
Proof.
  cbv zeta. split; [vm_compute; reflexivity|].
  destruct (@C3_version_gate_no_mutation nat Demo.healthyCluster
              (final (@updateMap nat Demo.healthyCluster Demo.first517)))
    as (Hs & He & Hst & _).
  - right. right.
    exists (GetResponse.mk [KeyValue.mk schemaVersionPath "7"]),
           (KeyValue.mk schemaVersionPath "7").
    split; [reflexivity|]. split; [reflexivity|]. right.
    vm_compute. reflexivity.
  - auto.
Defined.



Lemma C5_counterexample :
  let r := @updateMap nat Demo.busyCluster Demo.first517 in
  length Demo.ids517 = 517%nat /\
  ((517 + 511) / 512 = 2)%nat /\
  requestPaths (filter isBatchRequest (events r)) =
    [dbTablePath (map FormatInt (map Z.of_nat (seq 0 512)))] /\
  length (filter isBatchRequest (events r)) <>
    ((length Demo.ids517 + 511) / 512)%nat.
Proof.
  cbv zeta. split; [vm_compute; reflexivity|]. split; [vm_compute; reflexivity|].
  split; [vm_compute; reflexivity|]. vm_compute. discriminate.
Qed.

Lemma C5_witness :
  let r := @updateMap nat Demo.healthyCluster Demo.first517 in
  dbTableInfosEndpointNotFound (strategy Demo.first517) = false /\
  Demo.ids517 <> [] /\
  length (makeBatches Demo.ids517) = 2%nat /\
  map length (makeBatches Demo.ids517) = [512; 5]%nat /\
  length (requestPaths (filter isBatchRequest (events r))) = 2%nat.
Proof.
  cbv zeta.
  assert (@fetchedVersion nat Demo.healthyCluster Demo.first517 = Some 7)
    as Hv by (vm_compute; reflexivity).
  assert (7 <> SchemaVersion (strategy Demo.first517)) as Hne by (simpl; lia).
  assert (Demo.ids517 <> []) as Hids by (vm_compute; discriminate).
  destruct (@C5_batches_and_requests nat Demo.healthyCluster Demo.first517
              (fun w => (Demo.ids517, w)) 7 eq_refl eq_refl Hv Hne Hids)
    as (_ & _ & _ & Hlen & k & Hk & Hp & Hok).
  split; [reflexivity|]. split; [exact Hids|].
  split; [etransitivity; [exact Hlen|vm_compute; reflexivity]|].
  split; [vm_compute; reflexivity|].
  etransitivity; [exact (f_equal length Hp)|].
  vm_compute in Hok. destruct Hok as [-> _]. vm_compute. reflexivity.
Defined.


Lemma C7_witness :
  DBInfo.State Demo.goneDB = model.StateNone /\
  @scanDatabases nat Demo.healthyCluster
    [Demo.shopDB; Demo.goneDB; Demo.authDB] true Demo.firstBare =
  @scanDatabases nat Demo.healthyCluster
    [Demo.shopDB; Demo.authDB] true Demo.firstBare.
Proof.
  split; [reflexivity|].
  exact (proj1 (@C7_dropped_database_skipped nat Demo.healthyCluster
                  [Demo.shopDB] Demo.goneDB [Demo.authDB] true 7
                  Demo.firstBare eq_refl)).
Defined.

Lemma C8_witness :
  let r := @fullScan nat Demo.partialCluster 7 Demo.firstBare in
  requestPaths (events r) = ["/schema"; "/schema/shop"; "/schema/auth"]%string /\
  allOk (events r) = false /\
  dom (TableMap (strategy (final r))) = {[200]} /\
  SchemaVersion (strategy (final r)) = -1.
Proof.
  cbv zeta.
  destruct (@C8_failed_database_skipped nat Demo.partialCluster
              [] Demo.shopDB [Demo.goneDB; Demo.authDB] 7
              "500 Internal Server Error" Demo.firstBare)
    as (_ & _ & _ & _ & _ & _ & _ & HV).
  - vm_compute. reflexivity.
  - discriminate.
  - vm_compute. reflexivity.
  - split; [vm_compute; reflexivity|]. split; [vm_compute; reflexivity|].
    split; [vm_compute; reflexivity|]. rewrite HV. reflexivity.
Defined.

Lemma C9_witness :
  let s := mkSystem
             (mkStrategy None 3 false
                {[ 900 := tableDetail.mk "old" "gone" 900 ∅ ]}) 0%nat in
  let r := @updateMap nat Demo.healthyCluster s in
  is_Some (TableMap (strategy s) !! 900) /\
  is_Some (TableMap (strategy (final r)) !! 900) /\
  dom (TableMap (strategy (final r))) = {[100; 101; 102; 200; 900]}.
Proof.
  cbv zeta.
  assert (is_Some ((({[ 900 := tableDetail.mk "old" "gone" 900 ∅ ]}
                     : gmap Z tableDetail.t)) !! 900)) as Hold.
  { rewrite lookup_singleton_eq. eauto. }
  split; [exact Hold|]. split.
  - exact (proj1 (proj2 (proj2
             (@C9_lookup_only_grows nat Demo.healthyCluster
                (mkSystem
                   (mkStrategy None 3 false
                      {[ 900 := tableDetail.mk "old" "gone" 900 ∅ ]}) 0%nat))))
             900 Hold).
  - vm_compute. reflexivity.
Defined.

(** * Further properties of the refresh *)

Section RequestFacts.
Context {W : Type} `{Cluster W}.
Implicit Types (s : System W) (evs : list Event).

(** [request]: a value is returned exactly when the transport answered
    and the body decodes; an error of the transport is returned as it is,
    an error of the decoder wrapped as invalid data; in every case the
    strategy is left alone and the call is one event. *)
Theorem request_outcome {T} (unmarshal : string -> result T) path s :
  let r := request unmarshal path s in
  let raw := (tidbClient_SendGetRequest path (world s)).1 in
  (forall v, value r = Ok v <->
             exists data, raw = Ok data /\ unmarshal data = Ok v) /\
  (forall e, value r = Err e <->
             raw = Err e \/
             exists data cause,
               raw = Ok data /\ unmarshal data = Err cause /\
               e = ErrInvalidData_Wrap cause) /\
  strategy (final r) = strategy s /\
  world (final r) = (tidbClient_SendGetRequest path (world s)).2 /\
  events r = [EvRequest path raw (errorOf (value r))].
Proof.
  cbv zeta. rewrite request_events, request_final.
  split; [|split; [|by repeat split]].
  - intros v. split; [apply request_value|].
    intros (data & Hraw & Hdec). unfold request, value.
    destruct (tidbClient_SendGetRequest path (world s)) as [raw w].
    simpl in *. by rewrite Hraw, Hdec.
  - intros e. unfold request, value.
    destruct (tidbClient_SendGetRequest path (world s)) as [[data|e'] w]; simpl.
    + destruct (unmarshal data) as [v|cause] eqn:Hd; split.
      * discriminate.
      * intros [[=]|(d & c & [= <-] & Hc & _)]. by rewrite Hd in Hc.
      * intros [= <-]. right. by exists data, cause.
      * intros [[=]|(d & c & [= <-] & Hc & ->)]. rewrite Hd in Hc.
        by injection Hc as <-.
    + split.
      * intros [= <-]. by left.
      * intros [[= <-]|(d & c & [=] & _)]. reflexivity.
Qed.

Lemma prefix_app (p str : string) :
  String.prefix p str = true <-> exists post, str = p +:+ post.
Proof.
  revert str. induction p as [|c p IH]; intros str.
  - split; [intros _; by exists str|intros _; by destruct str].
  - destruct str as [|c' str]; simpl; [split; [done|intros [post [=]]]|].
    destruct (Ascii.ascii_dec c c') as [<-|Hne].
    + rewrite IH. split; intros [post Hp]; exists post.
      * by rewrite Hp.
      * by injection Hp.
    + split; [done|]. intros [post [= E _]]. by destruct Hne.
Qed.

(** The test of line 88: the text of the error has the given text as a
    substring. *)
Theorem Contains_substring (str sub : string) :
  Contains str sub = true <->
  exists pre post, str = pre +:+ sub +:+ post.
Proof.
  induction str as [|c str IH].
  - change (Contains "" sub) with (if String.prefix sub "" then true else false).
    destruct (String.prefix sub "") eqn:Hp.
    + apply prefix_app in Hp as [post Hp]. split; [|done].
      intros _. by exists ""%string, post.
    + split; [done|]. intros (pre & post & E).
      destruct pre; [|discriminate]. simpl in E.
      assert (String.prefix sub "" = true) as Hp' by (apply prefix_app; eauto).
      by rewrite Hp in Hp'.
  - change (Contains (String c str) sub)
      with (if String.prefix sub (String c str) then true else Contains str sub).
    destruct (String.prefix sub (String c str)) eqn:Hp.
    + apply prefix_app in Hp as [post Hp]. split; [|done].
      intros _. by exists ""%string, post.
    + rewrite IH. split.
      * intros (pre & post & ->). by exists (String c pre), post.
      * intros (pre & post & E). destruct pre as [|c' pre].
        -- simpl in E.
           assert (String.prefix sub (String c str) = true) as Hp'
             by (apply prefix_app; eauto).
           by rewrite Hp in Hp'.
        -- injection E as _ ->. by exists pre, post.
Qed.

End RequestFacts.

Section CycleFacts.
Context {W : Type} `{Cluster W}.
Implicit Types (s : System W) (evs : list Event).

Lemma requestBatches_quiet bs s :
  Forall (fun e => isRequest e || isStore e = true)
    (events (requestBatches bs s)).
Proof.
  revert s. induction bs as [|b bs IH]; intros s; [constructor|].
  rewrite requestBatches_cons. cbv zeta.
  destruct (value (request Unmarshal_DBTableInfos (dbTablePath b) s))
    as [infos|err]; autorewrite with run; rewrite request_events.
  - constructor; [done|]. apply Forall_app. split; [|apply IH].
    eapply Forall_impl; [apply storesOnly_dbTableStores|].
    intros e He. by destruct e.
  - by constructor.
Qed.

Lemma scanDatabases_quiet dbs b s :
  Forall (fun e => isRequest e || isStore e = true)
    (events (scanDatabases dbs b s)).
Proof.
  revert b s. induction dbs as [|db dbs IH]; intros b s; [constructor|].
  rewrite scanDatabases_cons.
  destruct (decide (DBInfo.State db = model.StateNone)); [apply IH|].
  cbv zeta.
  destruct (value (request Unmarshal_TableInfos _ s)) as [ts|err];
    autorewrite with run; rewrite request_events.
  - constructor; [done|]. apply Forall_app. split; [|apply IH].
    eapply Forall_impl; [apply storesOnly_tables|].
    intros e He. by destruct e.
  - constructor; [done|apply IH].
Qed.

Lemma fullScan_quiet schemaVersion s :
  Forall (fun e => isRequest e || isStore e = true)
    (events (fullScan schemaVersion s)).
Proof.
  rewrite fullScan_run. cbv zeta.
  destruct (value (request Unmarshal_DBInfos "/schema" s));
    autorewrite with run; rewrite request_events.
  - constructor; [done|apply scanDatabases_quiet].
  - by constructor.
Qed.

Lemma quiet_filter (p : Event -> bool) evs :
  (forall e, isRequest e || isStore e = true -> p e = false) ->
  Forall (fun e => isRequest e || isStore e = true) evs ->
  filter p evs = [].
Proof.
  intros Hp. induction 1 as [|e evs He _ IH]; [done|].
  rewrite filter_cons. destruct (decide (p e)) as [Hpe|_]; [|exact IH].
  rewrite (Hp e He) in Hpe. by destruct Hpe.
Qed.

(** The run of a cycle that is eligible for the batched strategy. *)
Lemma updateMap_eligible_run s provider schemaVersion :
  dbTableInfosEndpointNotFound (strategy s) = false ->
  getTableIDs (strategy s) = Some provider ->
  fetchedVersion s = Some schemaVersion ->
  schemaVersion <> SchemaVersion (strategy s) ->
  (provider (EtcdClient_Get schemaVersionPath (world s)).2).1 <> [] ->
  let w0 := (EtcdClient_Get schemaVersionPath (world s)).2 in
  let rb := requestBatches (makeBatches (provider w0).1)
              (mkSystem (strategy s) (provider w0).2) in
  updateMap s =
  if value rb
  then (tt, final (setSchemaVersion schemaVersion (final rb)),
        EvEtcdGet schemaVersionPath :: EvGetTableIDs :: events rb)
  else (tt, final (fullScan schemaVersion (final rb)),
        EvEtcdGet schemaVersionPath :: EvGetTableIDs :: events rb ++
        events (fullScan schemaVersion (final rb))).
Proof.
  intros Hf Hg Hv Hne Hids. cbv zeta.
  rewrite updateMap_run. cbv zeta. rewrite Hv.
  destruct (Z.eqb_spec schemaVersion (SchemaVersion (strategy s))); [done|].
  rewrite batchAttempt_run. cbn [strategy world]. rewrite Hg, Hf. cbv zeta.
  destruct (Nat.eqb_spec
              (length (provider (EtcdClient_Get schemaVersionPath (world s)).2).1) 0)
    as [Hz|_].
  { destruct (provider _).1; [done|discriminate]. }
  destruct (value (requestBatches _ _)); by autorewrite with run.
Qed.

(** When every batched request of an eligible cycle succeeds, the cycle
    is the version check, the call of the provider and the batched
    requests, one per batch; it sends no request to the schema endpoints
    and commits the fetched version. *)
Theorem batched_success_commits s provider schemaVersion :
  dbTableInfosEndpointNotFound (strategy s) = false ->
  getTableIDs (strategy s) = Some provider ->
  fetchedVersion s = Some schemaVersion ->
  schemaVersion <> SchemaVersion (strategy s) ->
  (provider (EtcdClient_Get schemaVersionPath (world s)).2).1 <> [] ->
  allOk (events (updateMap s)) = true ->
  requestPaths (events (updateMap s)) =
    map dbTablePath
      (makeBatches (provider (EtcdClient_Get schemaVersionPath (world s)).2).1) /\
  filter isScanRequest (events (updateMap s)) = [] /\
  SchemaVersion (strategy (final (updateMap s))) = schemaVersion /\
  dbTableInfosEndpointNotFound (strategy (final (updateMap s))) = false.
Proof.
  intros Hf Hg Hv Hne Hids.
  rewrite (updateMap_eligible_run s provider schemaVersion Hf Hg Hv Hne Hids).
  cbv zeta.
  set (rb := requestBatches _ _).
  pose proof (requestBatches_value _ _ : value rb = allOk (events rb)) as Hval.
  destruct (requestBatches_requests _ _ : let evs := events rb in _)
    as (S1 & _ & _ & k & K1 & _ & _ & K4).
  destruct (requestBatches_evolves _ _ :
              evolves _ (events rb) (strategy (final rb))) as (_ & _ & _ & F).
  destruct (value rb) eqn:Hvb; autorewrite with run.
  - intros _. rewrite <- Hval in K4. destruct K4 as [-> _].
    rewrite firstn_all in K1.
    change (requestPaths (EvEtcdGet schemaVersionPath :: EvGetTableIDs :: events rb))
      with (requestPaths (events rb)).
    change (filter isScanRequest
              (EvEtcdGet schemaVersionPath :: EvGetTableIDs :: events rb))
      with (filter isScanRequest (events rb)).
    rewrite K1, S1. split; [done|]. split; [done|]. split; [done|].
    simpl. rewrite F. cbn [strategy]. rewrite Hf. simpl.
    destruct (returned404 (events rb)) eqn:Hnf; [|done].
    exfalso. clear -Hnf Hval. symmetry in Hval.
    induction (events rb) as [|e l IH]; [done|].
    simpl in *. apply andb_prop in Hval as [He Hl].
    apply orb_prop in Hnf as [Hn|Hn]; [|by apply IH].
    by destruct e as [| |p r [err|]|].
  - intros Hok. exfalso.
    change (allOk (EvEtcdGet schemaVersionPath :: EvGetTableIDs ::
                   events rb ++ events (fullScan schemaVersion (final rb))))
      with (allOk (events rb ++ events (fullScan schemaVersion (final rb))))
      in Hok.
    rewrite allOk_app, <- Hval in Hok. discriminate.
Qed.

(** If the request of the database list fails, the full scan is that one
    request: no table list is requested, nothing is stored, and the strategy
    (version marker included) is as it was. *)
Theorem fullScan_schema_failure schemaVersion s err :
  value (request Unmarshal_DBInfos "/schema" s) = Err err ->
  strategy (final (fullScan schemaVersion s)) = strategy s /\
  events (fullScan schemaVersion s) =
    [EvRequest "/schema" (tidbClient_SendGetRequest "/schema" (world s)).1
       (Some err)].
Proof.
  intros Hv. rewrite fullScan_run. cbv zeta. rewrite Hv.
  autorewrite with run. by rewrite request_strategy, request_events, Hv.
Qed.

Lemma scanDatabases_all_dropped dbs b s :
  Forall (fun db => DBInfo.State db = model.StateNone) dbs ->
  scanDatabases dbs b s = (b, s, []).
Proof.
  induction 1 as [|db dbs Hdb _ IH]; [done|].
  rewrite scanDatabases_cons.
  by destruct (decide (DBInfo.State db = model.StateNone)).
Qed.

(** A full scan that finds no database, or only databases in [StateNone],
    is the one request of the database list: it stores nothing and commits
    the fetched version. *)
Theorem fullScan_no_live_database schemaVersion s dbInfos :
  value (request Unmarshal_DBInfos "/schema" s) = Ok dbInfos ->
  Forall (fun db => DBInfo.State db = model.StateNone) dbInfos ->
  events (fullScan schemaVersion s) =
    [EvRequest "/schema" (tidbClient_SendGetRequest "/schema" (world s)).1
       None] /\
  SchemaVersion (strategy (final (fullScan schemaVersion s))) = schemaVersion /\
  TableMap (strategy (final (fullScan schemaVersion s))) =
    TableMap (strategy s) /\
  dbTableInfosEndpointNotFound (strategy (final (fullScan schemaVersion s))) =
    dbTableInfosEndpointNotFound (strategy s).
Proof.
  intros Hv Hall. rewrite fullScan_run. cbv zeta. rewrite Hv.
  rewrite (scanDatabases_all_dropped _ _ _ Hall). autorewrite with run.
  rewrite request_events, Hv, app_nil_r. simpl.
  by rewrite request_strategy.
Qed.

(** The collaborators a cycle calls: etcd once, first; the identifier
    provider at most once, and exactly when the version check has found a
    changed version, a provider is present and the capability flag is
    unset; and every batched request before every request to the schema
    endpoints. *)
Theorem cycle_collaborator_calls s :
  let evs := events (updateMap s) in
  (exists rest,
     evs = EvEtcdGet schemaVersionPath :: rest /\
     filter isEtcdGet rest = []) /\
  (length (filter isProviderCall evs) <= 1)%nat /\
  (In EvGetTableIDs evs <->
   exists provider schemaVersion,
     getTableIDs (strategy s) = Some provider /\
     dbTableInfosEndpointNotFound (strategy s) = false /\
     fetchedVersion s = Some schemaVersion /\
     schemaVersion <> SchemaVersion (strategy s)) /\
  (exists batched scanned,
     evs = batched ++ scanned /\
     filter isScanRequest batched = [] /\
     filter isBatchRequest scanned = []).
Proof.
  cbv zeta. rewrite updateMap_run. cbv zeta.
  assert (forall l, In EvGetTableIDs (EvEtcdGet schemaVersionPath :: l) <->
                    In EvGetTableIDs l) as Hcons.
  { intros l. split; [intros [[=]|]; auto|by right]. }
  destruct (fetchedVersion s) as [v|]; autorewrite with run.
  2: { repeat split.
       - by exists [].
       - simpl. lia.
       - intros [[=]|[]].
       - intros (p & v & _ & _ & [=] & _).
       - by exists [EvEtcdGet schemaVersionPath], []. }
  destruct (Z.eqb_spec v (SchemaVersion (strategy s))) as [Heq|Hne];
    autorewrite with run.
  { repeat split.
    - by exists [].
    - simpl. lia.
    - intros [[=]|[]].
    - intros (p & v' & _ & _ & [= <-] & Hne). done.
    - by exists [EvEtcdGet schemaVersionPath], []. }
  set (s0 := mkSystem (strategy s) (EtcdClient_Get schemaVersionPath (world s)).2).
  pose proof (fullScan_quiet v) as Hq.
  destruct (batchAttempt_spec v s0) as (_ & _ & _ & _ & Sb & _).
  assert (let eb := events (batchAttempt v s0) in
          filter isEtcdGet eb = [] /\
          (length (filter isProviderCall eb) <= 1)%nat /\
          (In EvGetTableIDs eb <->
           exists provider,
             getTableIDs (strategy s) = Some provider /\
             dbTableInfosEndpointNotFound (strategy s) = false)) as (B1 & B2 & B3).
  { cbv zeta. rewrite batchAttempt_run. cbn [strategy s0].
    destruct (getTableIDs (strategy s)) as [provider|]; autorewrite with run.
    2: { repeat split; [simpl; lia|intros []|intros (p & [=] & _)]. }
    destruct (dbTableInfosEndpointNotFound (strategy s)); autorewrite with run.
    { repeat split; [simpl; lia|intros []|intros (p & _ & [=])]. }
    cbv zeta. destruct (Nat.eqb _ 0); autorewrite with run.
    { repeat split; [simpl; lia|eauto|intros _; by left]. }
    pose proof (requestBatches_quiet
                  (makeBatches (provider (world s0)).1)
                  (mkSystem (strategy s) (provider (world s0)).2)) as Hqb.
    destruct (value (requestBatches _ _)); autorewrite with run;
      (split; [|split]);
      try (change (filter isEtcdGet (EvGetTableIDs :: ?l))
             with (filter isEtcdGet l);
           apply (quiet_filter isEtcdGet); [by intros [] |exact Hqb]);
      try (change (filter isProviderCall (EvGetTableIDs :: ?l))
             with (EvGetTableIDs :: filter isProviderCall l);
           rewrite (quiet_filter isProviderCall _ (fun e => ltac:(by destruct e)) Hqb);
           simpl; lia);
      (split; [eauto|intros _; by left]). }
  destruct (value (batchAttempt v s0)); autorewrite with run.
  - split; [exists (events (batchAttempt v s0)); by split|].
    split; [exact B2|]. split.
    + rewrite Hcons, B3. split.
      * intros (p & Hg & Hf). by exists p, v.
      * intros (p & v' & Hg & Hf & _). by exists p.
    + exists (EvEtcdGet schemaVersionPath :: events (batchAttempt v s0)), [].
      by rewrite app_nil_r.
  - specialize (Hq (final (batchAttempt v s0))).
    split.
    { exists (events (batchAttempt v s0) ++
              events (fullScan v (final (batchAttempt v s0)))).
      split; [done|]. rewrite filter_app, B1.
      apply (quiet_filter isEtcdGet); [by intros []|exact Hq]. }
    split.
    { change (filter isProviderCall (EvEtcdGet schemaVersionPath :: ?l))
        with (filter isProviderCall l).
      rewrite filter_app, length_app.
      rewrite (quiet_filter isProviderCall _ (fun e => ltac:(by destruct e)) Hq).
      simpl. lia. }
    split.
    { rewrite Hcons. split.
      - intros Hin. apply in_app_or in Hin as [Hin|Hin].
        + apply B3 in Hin as (p & Hg & Hf). by exists p, v.
        + exfalso. apply list_elem_of_In in Hin.
          by apply (proj1 (Forall_forall _ _) Hq) in Hin.
      - intros (p & v' & Hg & Hf & _). apply in_or_app. left.
        apply B3. by exists p. }
    exists (EvEtcdGet schemaVersionPath :: events (batchAttempt v s0)),
           (events (fullScan v (final (batchAttempt v s0)))).
    split; [done|]. split; [exact Sb|].
    by destruct (fullScan_spec v (final (batchAttempt v s0)))
      as (_ & _ & _ & _ & B & _).
Qed.

End CycleFacts.

Section SteadyFacts.
Context {W : Type} `{Cluster W}.
Implicit Types (s : System W) (evs : list Event).


(** The not-found test reads the text of the error only: a batched request
    that the transport answered, with a body that does not decode, sets the
    capability flag when the text of the wrapped decoding error contains
    404; the loop ends there without a store. *)
Theorem decode_error_sets_flag batch rest s data cause :
  (tidbClient_SendGetRequest (dbTablePath batch) (world s)).1 = Ok data ->
  Unmarshal_DBTableInfos data = Err cause ->
  Contains (ErrInvalidData_Wrap cause) "404" = true ->
  let r := requestBatches (batch :: rest) s in
  value r = false /\
  dbTableInfosEndpointNotFound (strategy (final r)) = true /\
  events r =
    [EvRequest (dbTablePath batch) (Ok data)
       (Some (ErrInvalidData_Wrap cause))].
Proof.
  intros Hraw Hdec H404. cbv zeta. rewrite requestBatches_cons. cbv zeta.
  assert (value (request Unmarshal_DBTableInfos (dbTablePath batch) s) =
          Err (ErrInvalidData_Wrap cause)) as Hv.
  { unfold request, value.
    destruct (tidbClient_SendGetRequest (dbTablePath batch) (world s))
      as [raw w]. simpl in Hraw. subst raw. simpl. by rewrite Hdec. }
  rewrite Hv, H404. autorewrite with run.
  by rewrite request_events, Hv, Hraw.
Qed.

Lemma parseDigits_nonneg str acc z :
  0 <= acc -> parseDigits str acc = Some z -> 0 <= z.
Proof.
  revert acc. induction str as [|c str IH]; intros acc Hacc; simpl.
  - by intros [= <-].
  - destruct (isDigit c) eqn:Hd; [|done]. apply IH.
    unfold isDigit in Hd. apply andb_prop in Hd as [Hlo _].
    apply Nat.leb_le in Hlo. lia.
Qed.

Lemma ParseInt_range str z :
  ParseInt str = Some z -> - 2 ^ 63 <= z < 2 ^ 63.
Proof.
  unfold ParseInt. destruct str as [|c str]; [done|].
  cbv zeta.
  match goal with
  | |- context [parseDigits ?b 0] => destruct b; [done|]
  end.
  destruct (parseDigits _ 0) as [un|] eqn:Hp; [|done].
  pose proof (parseDigits_nonneg _ _ _ (Z.le_refl 0) Hp) as Hun.
  destruct (Ascii.eqb c "-").
  - destruct (Z.leb_spec un (2 ^ 63)); [|done]. intros [= <-]. lia.
  - destruct (Z.ltb_spec un (2 ^ 63)); [|done]. intros [= <-]. lia.
Qed.

(** The version marker stays a 64-bit signed integer: a cycle leaves it as
    it was or sets it to a value [ParseInt] has read. *)
Theorem SchemaVersion_int64 s :
  - 2 ^ 63 <= SchemaVersion (strategy s) < 2 ^ 63 ->
  - 2 ^ 63 <= SchemaVersion (strategy (final (updateMap s))) < 2 ^ 63.
Proof.
  intros Hold. destruct (updateMap_spec s) as (_ & _ & _ & ->).
  destruct (fetchedVersion s) as [v|] eqn:Hv; [|exact Hold].
  destruct (_ || _); [|exact Hold].
  unfold fetchedVersion, checkedVersion in Hv.
  destruct (EtcdClient_Get schemaVersionPath (world s)).1 as [resp|]; [|done].
  destruct (GetResponse.Kvs resp) as [|kv [|]]; try done.
  by apply ParseInt_range in Hv.
Qed.

End SteadyFacts.

(** * Further properties of the label builders *)

Section BuilderFacts.
Context {W : Type}.
Implicit Types (s : System W) (evs : list Event).

(** The lookup after a trace: under each identifier the entry last stored
    under it, or what the lookup held. *)
Lemma replay_lookup evs (m : gmap Z tableDetail.t) k :
  replay evs m !! k =
  match lastStore k evs with
  | Some d => Some d
  | None => m !! k
  end.
Proof.
  revert m. induction evs as [|e evs IH]; intros m; [done|].
  simpl. rewrite IH. destruct (lastStore k evs); [done|].
  destruct e as [key| |path raw err|id d]; try done.
  destruct (decide (id = k)) as [->|Hne].
  - by rewrite lookup_insert_eq.
  - by rewrite lookup_insert_ne.
Qed.

Lemma replay_twice evs (m : gmap Z tableDetail.t) :
  replay evs (replay evs m) = replay evs m.
Proof.
  apply map_eq. intros k. rewrite !replay_lookup.
  by destruct (lastStore k evs).
Qed.

(** Building from a list of tables is building from its parts in turn,
    for either builder. *)
Theorem builders_compose dbname (ts1 ts2 : list TableInfo.t)
  (ds1 ds2 : list (Z * DBTableInfo.t)) s :
  updateTableMap dbname (ts1 ++ ts2) s =
    (tt,
     final (updateTableMap dbname ts2 (final (updateTableMap dbname ts1 s))),
     events (updateTableMap dbname ts1 s) ++
     events (updateTableMap dbname ts2 (final (updateTableMap dbname ts1 s)))) /\
  updateTableMapByDBTableInfos (ds1 ++ ds2) s =
    (tt,
     final (updateTableMapByDBTableInfos ds2
              (final (updateTableMapByDBTableInfos ds1 s))),
     events (updateTableMapByDBTableInfos ds1 s) ++
     events (updateTableMapByDBTableInfos ds2
               (final (updateTableMapByDBTableInfos ds1 s)))).
Proof.
  rewrite !updateTableMap_run, !updateTableMapByDBTableInfos_run.
  autorewrite with run. unfold dbTableStores.
  rewrite !flat_map_app, !replay_app. done.
Qed.


(** The index names of a table: bound are the identifiers of its indices,
    each to the name of the last index of the list that has it. *)
Theorem indexNames_last_wins (before after : list IndexInfo.t)
  (index : IndexInfo.t) :
  (forall later, In later after -> IndexInfo.ID later <> IndexInfo.ID index) ->
  indexNames (before ++ index :: after) !! IndexInfo.ID index =
    Some (CIStr.O (IndexInfo.Name index)) /\
  (forall i,
     is_Some (indexNames (before ++ index :: after) !! i) <->
     In i (map IndexInfo.ID (before ++ index :: after))).
Proof.
  intros Hlater. split.
  - induction after as [|y after IH] using rev_ind.
    + by rewrite indexNames_snoc, lookup_insert_eq.
    + change (before ++ index :: after ++ [y])
        with (before ++ (index :: after) ++ [y]).
      rewrite app_assoc, indexNames_snoc, lookup_insert_ne.
      * apply IH. intros later Hin. apply Hlater, in_or_app. by left.
      * apply Hlater, in_or_app. right. by left.
  - intros i. generalize (before ++ index :: after). clear.
    intros l. induction l as [|x l IH] using rev_ind.
    + unfold indexNames. simpl. rewrite lookup_empty. split; [by intros [??]|done].
    + rewrite indexNames_snoc, map_app, in_app_iff. simpl.
      destruct (decide (IndexInfo.ID x = i)) as [->|Hne].
      * rewrite lookup_insert_eq. split; eauto.
      * rewrite lookup_insert_ne by done. rewrite IH. tauto.
Qed.

End BuilderFacts.

Section OrderFacts.
Context {W : Type} `{Cluster W}.
Implicit Types (s : System W) (evs : list Event).

(** After a cycle the lookup holds, under each identifier, the entry the
    cycle stored last under it, and what it held before under an
    identifier the cycle did not store. *)
Theorem cycle_lookup_last_store s k :
  TableMap (strategy (final (updateMap s))) !! k =
  match lastStore k (events (updateMap s)) with
  | Some d => Some d
  | None => TableMap (strategy s) !! k
  end.
Proof.
  destruct (updateMap_spec s) as (_ & _ & -> & _). apply replay_lookup.
Qed.

Lemma lastStore_perm k evs evs' :
  evs ≡ₚ evs' -> NoDup (storeKeys evs) ->
  lastStore k evs = lastStore k evs'.
Proof.
  induction 1 as [|x l l' Hp IH|x y l|l l' l'' Hp1 IH1 Hp2 IH2]; intros Hnd.
  - done.
  - simpl. rewrite IH; [done|].
    destruct x; simpl in Hnd; try done. by apply NoDup_cons in Hnd as [_ ?].
  - simpl. destruct (lastStore k l); [done|].
    destruct x, y; simpl; repeat case_decide; subst; try done.
    simpl in Hnd. apply NoDup_cons in Hnd as [Hk _].
    exfalso. apply Hk. apply list_elem_of_In. by left.
  - rewrite IH1 by done. apply IH2.
    unfold storeKeys. by rewrite <- Hp1.
Qed.

Lemma replay_perm evs evs' (m : gmap Z tableDetail.t) :
  evs ≡ₚ evs' -> NoDup (storeKeys evs) -> replay evs m = replay evs' m.
Proof.
  intros Hp Hnd. apply map_eq. intros k.
  by rewrite !replay_lookup, (lastStore_perm k evs evs' Hp Hnd).
Qed.

Lemma storeKeys_tableStores dbname table :
  storeKeys (tableStores dbname table) = tableIdents table.
Proof.
  unfold tableStores, tableIdents, storeKeys. simpl. f_equal.
  destruct (TableInfo.GetPartitionInfo table) as [partition|]; [|done].
  induction (PartitionInfo.Definitions partition) as [|d l IH]; [done|].
  simpl. by rewrite IH.
Qed.

Lemma storeKeys_app evs1 evs2 :
  storeKeys (evs1 ++ evs2) = storeKeys evs1 ++ storeKeys evs2.
Proof. apply omap_app. Qed.

Lemma storeKeys_dbTableStores dbTableInfos :
  storeKeys (dbTableStores dbTableInfos) = dbTableIdents dbTableInfos.
Proof.
  unfold dbTableStores, dbTableIdents.
  induction dbTableInfos as [|kv l IH]; [done|].
  cbn [flat_map]. by rewrite storeKeys_app, storeKeys_tableStores, IH.
Qed.

(** The order in which the combined descriptions of an answer are visited
    (the order of a Go map) does not matter to the lookup when the
    identifiers of the tables and partitions described are pairwise
    distinct; nor does the order of the tables of a table list. *)
Theorem builders_order_independent dbname
  (infos infos' : list (Z * DBTableInfo.t)) (ts ts' : list TableInfo.t) s :
  (infos ≡ₚ infos' -> NoDup (dbTableIdents infos) ->
   TableMap (strategy (final (updateTableMapByDBTableInfos infos s))) =
   TableMap (strategy (final (updateTableMapByDBTableInfos infos' s)))) /\
  (ts ≡ₚ ts' -> NoDup (flat_map tableIdents ts) ->
   TableMap (strategy (final (updateTableMap dbname ts s))) =
   TableMap (strategy (final (updateTableMap dbname ts' s)))).
Proof.
  rewrite !updateTableMapByDBTableInfos_run, !updateTableMap_run.
  autorewrite with run. cbn [withTableMap strategy TableMap]. split.
  - intros Hp Hnd. apply replay_perm.
    + unfold dbTableStores. by apply Permutation_flat_map.
    + by rewrite storeKeys_dbTableStores.
  - intros Hp Hnd. apply replay_perm.
    + by apply Permutation_flat_map.
    + assert (forall l, storeKeys (flat_map (tableStores dbname) l) =
                        flat_map tableIdents l) as ->; [|done].
      intros l. induction l as [|t l IH]; [done|].
      cbn [flat_map]. by rewrite storeKeys_app, storeKeys_tableStores, IH.
Qed.

(** Building again from the same descriptions leaves the lookup as
    building once: for a table list, visited in the order of the list; for
    the combined descriptions of an answer, whose identifiers are pairwise
    distinct, in whatever order the second visit takes them. *)
Theorem builders_idempotent dbname (tableInfos : list TableInfo.t)
  (dbTableInfos dbTableInfos' : list (Z * DBTableInfo.t)) s :
  TableMap (strategy (final (updateTableMap dbname tableInfos
                               (final (updateTableMap dbname tableInfos s))))) =
    TableMap (strategy (final (updateTableMap dbname tableInfos s))) /\
  (dbTableInfos ≡ₚ dbTableInfos' ->
   NoDup (dbTableIdents dbTableInfos) ->
   TableMap (strategy (final (updateTableMapByDBTableInfos dbTableInfos'
                                (final (updateTableMapByDBTableInfos
                                          dbTableInfos s))))) =
     TableMap (strategy (final (updateTableMapByDBTableInfos dbTableInfos s)))).
Proof.
  rewrite !updateTableMap_run, !updateTableMapByDBTableInfos_run.
  autorewrite with run. cbn [withTableMap strategy TableMap].
  split; [apply replay_twice|].
  intros Hp Hnd.
  rewrite <- (replay_perm (dbTableStores dbTableInfos)
                (dbTableStores dbTableInfos')).
  - apply replay_twice.
  - unfold dbTableStores. by apply Permutation_flat_map.
  - by rewrite storeKeys_dbTableStores.
Qed.

Lemma makeBatches_concat (ids : list Z) :
  concat (makeBatches ids) = map FormatInt ids.
Proof.
  destruct ids as [|id ids]; [done|].
  by destruct (makeBatches_shape (id :: ids)) as (? & ? & _ & _ & _ & _ & ?).
Qed.

Lemma full_lengths (full : list (list string)) :
  Forall (fun b => length b = tableInfosBatchSize) full ->
  map length full = replicate (length full) tableInfosBatchSize.
Proof. induction 1 as [|b l Hb _ IH]; [done|]. simpl. by rewrite Hb, IH. Qed.

Lemma makeBatches_sizes (ids : list Z) :
  ids <> [] ->
  map length (makeBatches ids) =
  replicate (length (makeBatches ids) - 1) tableInfosBatchSize ++
  [(length ids - tableInfosBatchSize * (length (makeBatches ids) - 1))%nat].
Proof.
  intros Hne.
  destruct (makeBatches_shape ids Hne) as (full & last & -> & F & _ & L & _).
  rewrite map_app, length_app, (full_lengths _ F). simpl.
  replace (length full + 1 - 1)%nat with (length full) by lia.
  by rewrite L.
Qed.

(** The order in which the known identifiers are visited (the order of a
    Go map) changes neither the number of batches built, nor their sizes,
    nor the identifiers the batches hold together, only which batch holds
    an identifier. What is sent is every batch when no request fails, and
    so the same identifiers for either order; when a request fails the loop
    stops there, and the identifiers sent are those of the batches up to
    it. *)
Theorem batches_order_independent (ids ids' : list Z) :
  ids ≡ₚ ids' ->
  length (makeBatches ids) = length (makeBatches ids') /\
  map length (makeBatches ids) = map length (makeBatches ids') /\
  concat (makeBatches ids) ≡ₚ concat (makeBatches ids') /\
  (forall s s',
     allOk (events (requestBatches (makeBatches ids) s)) = true ->
     allOk (events (requestBatches (makeBatches ids') s')) = true ->
     requestPaths (events (requestBatches (makeBatches ids) s)) =
       map dbTablePath (makeBatches ids) /\
     requestPaths (events (requestBatches (makeBatches ids') s')) =
       map dbTablePath (makeBatches ids')) /\
  (forall s,
   exists k,
     (k <= length (makeBatches ids))%nat /\
     requestPaths (events (requestBatches (makeBatches ids) s)) =
       map dbTablePath (take k (makeBatches ids))).
Proof.
  intros Hp. pose proof (Permutation_length Hp) as Hlen.
  assert (length (makeBatches ids) = length (makeBatches ids')) as Hn
    by (by rewrite !makeBatches_length, Hlen).
  assert (forall l s,
            allOk (events (requestBatches (makeBatches l) s)) = true ->
            requestPaths (events (requestBatches (makeBatches l) s)) =
              map dbTablePath (makeBatches l)) as Hall.
  { intros l s Hok.
    destruct (requestBatches_requests (makeBatches l) s)
      as (_ & _ & _ & k & K1 & _ & _ & K4).
    rewrite Hok in K4. destruct K4 as [-> _]. by rewrite firstn_all in K1. }
  split; [exact Hn|]. split; [|split; [|split]].
  - destruct ids as [|id ids].
    + apply Permutation_nil in Hp. by subst.
    + assert (ids' <> []) as Hne'.
      { intros ->. symmetry in Hp. by apply Permutation_nil in Hp. }
      rewrite (makeBatches_sizes (id :: ids)), (makeBatches_sizes ids') by done.
      by rewrite Hn, Hlen.
  - rewrite !makeBatches_concat. by apply Permutation_map.
  - intros s s' Hok Hok'. split; by apply Hall.
  - intros s.
    destruct (requestBatches_requests (makeBatches ids) s)
      as (_ & _ & _ & k & K1 & K2 & _).
    by exists k.
Qed.

End OrderFacts.

(** * The further properties on the test cluster *)

Lemma batched_success_commits_witness :
  let r := @updateMap nat Demo.healthyCluster Demo.first517 in
  allOk (events r) = true /\
  length (requestPaths (events r)) = 2%nat /\
  filter isScanRequest (events r) = [] /\
  SchemaVersion (strategy (final r)) = 7.
Proof.
  cbv zeta.
  assert (allOk (events (@updateMap nat Demo.healthyCluster Demo.first517))
          = true) as Hok by (vm_compute; reflexivity).
  destruct (@batched_success_commits nat Demo.healthyCluster Demo.first517
              (fun w => (Demo.ids517, w)) 7 eq_refl eq_refl
              ltac:(vm_compute; reflexivity) ltac:(simpl; lia)
              ltac:(vm_compute; discriminate) Hok)
    as (Hp & Hs & Hv & _).
  split; [exact Hok|]. split; [|split; [exact Hs|exact Hv]].
  etransitivity; [exact (f_equal length Hp)|]. vm_compute. reflexivity.
Defined.

Lemma fullScan_schema_failure_witness :
  let r := @fullScan nat Demo.downCluster 7 Demo.firstBare in
  strategy (final r) = strategy Demo.firstBare /\
  events r = [EvRequest "/schema" (Err "connection refused")
                (Some "connection refused"%string)].
Proof.
  exact (@fullScan_schema_failure nat Demo.downCluster 7 Demo.firstBare
           "connection refused" ltac:(vm_compute; reflexivity)).
Defined.

Lemma fullScan_no_live_database_witness :
  let r := @fullScan nat Demo.ghostCluster 7 Demo.firstBare in
  requestPaths (events r) = ["/schema"%string] /\
  SchemaVersion (strategy (final r)) = 7 /\
  TableMap (strategy (final r)) = ∅.
Proof.
  cbv zeta.
  destruct (@fullScan_no_live_database nat Demo.ghostCluster 7 Demo.firstBare
              [Demo.goneDB] ltac:(vm_compute; reflexivity)
              ltac:(repeat constructor))
    as (He & Hv & Ht & _).
  split; [by rewrite He|]. split; [exact Hv|exact Ht].
Defined.


Lemma decode_error_sets_flag_witness :
  let r := @requestBatches nat Demo.garbledCluster [["100"%string]; ["200"%string]]
             Demo.firstBare in
  value r = false /\
  dbTableInfosEndpointNotFound (strategy (final r)) = true /\
  length (events r) = 1%nat.
Proof.
  cbv zeta.
  destruct (@decode_error_sets_flag nat Demo.garbledCluster
              ["100"%string] [["200"%string]] Demo.firstBare "orders@shop"
              "json: cannot unmarshal number 404 into Go value"
              ltac:(vm_compute; reflexivity) eq_refl
              ltac:(vm_compute; reflexivity))
    as (Hv & Hf & He).
  split; [exact Hv|]. split; [exact Hf|]. by rewrite He.
Defined.

Lemma SchemaVersion_int64_witness :
  - 2 ^ 63 <=
  SchemaVersion (strategy (final (@updateMap nat Demo.healthyCluster
                                    Demo.firstBare))) < 2 ^ 63.
Proof.
  apply (@SchemaVersion_int64 nat Demo.healthyCluster Demo.firstBare).
  simpl. lia.
Defined.


Lemma indexNames_last_wins_witness :
  indexNames
    [IndexInfo.mk 1 (CIStr.mk "old"); IndexInfo.mk 1 (CIStr.mk "new");
     IndexInfo.mk 2 (CIStr.mk "other")] !! 1 = Some "new"%string.
Proof.
  apply (proj1 (indexNames_last_wins
                  [IndexInfo.mk 1 (CIStr.mk "old")]
                  [IndexInfo.mk 2 (CIStr.mk "other")]
                  (IndexInfo.mk 1 (CIStr.mk "new"))
                  ltac:(intros later [<-|[]]; discriminate))).
Defined.

Lemma builders_order_independent_witness :
  let a := (0, DBTableInfo.mk Demo.shopDB Demo.ordersTable) in
  let b := (1, DBTableInfo.mk Demo.authDB Demo.usersTable) in
  TableMap (strategy (final (updateTableMapByDBTableInfos (W := nat) [a; b]
                               Demo.firstBare))) =
  TableMap (strategy (final (updateTableMapByDBTableInfos (W := nat) [b; a]
                               Demo.firstBare))).
Proof.
  cbv zeta.
  apply (proj1 (builders_order_independent (W := nat) "shop"
                  [(0, DBTableInfo.mk Demo.shopDB Demo.ordersTable);
                   (1, DBTableInfo.mk Demo.authDB Demo.usersTable)]
                  [(1, DBTableInfo.mk Demo.authDB Demo.usersTable);
                   (0, DBTableInfo.mk Demo.shopDB Demo.ordersTable)]
                  [] [] Demo.firstBare)).
  - apply perm_swap.
  - apply (bool_decide_unpack _). vm_compute. exact I.
Defined.

Lemma batches_order_independent_witness :
  map length (makeBatches (Demo.ids517 ++ [1000])) =
  map length (makeBatches (1000 :: Demo.ids517)).
Proof.
  apply (batches_order_independent (W := nat) (H := Demo.healthyCluster)
           (Demo.ids517 ++ [1000]) (1000 :: Demo.ids517)).
  symmetry. apply Permutation_cons_append.
Defined.

Lemma builders_idempotent_witness :
  let a := (0, DBTableInfo.mk Demo.shopDB Demo.ordersTable) in
  let b := (1, DBTableInfo.mk Demo.authDB Demo.usersTable) in
  TableMap (strategy (final (updateTableMapByDBTableInfos (W := nat) [b; a]
                               (final (updateTableMapByDBTableInfos [a; b]
                                         Demo.firstBare))))) =
  TableMap (strategy (final (updateTableMapByDBTableInfos (W := nat) [a; b]
                               Demo.firstBare))).
Proof.
  cbv zeta.
  apply (proj2 (builders_idempotent (W := nat) "shop" []
                  [(0, DBTableInfo.mk Demo.shopDB Demo.ordersTable);
                   (1, DBTableInfo.mk Demo.authDB Demo.usersTable)]
                  [(1, DBTableInfo.mk Demo.authDB Demo.usersTable);
                   (0, DBTableInfo.mk Demo.shopDB Demo.ordersTable)]
                  Demo.firstBare)).
  - apply perm_swap.
  - apply (bool_decide_unpack _). vm_compute. exact I.
Defined.

Section PathFacts.

Lemma noComma_uint (d : Decimal.uint) :
  noComma (NilEmpty.string_of_uint d) = true.
Proof. induction d; simpl; auto. Qed.

Lemma FormatInt_noComma (i : Z) : noComma (FormatInt i) = true.
Proof.
  unfold FormatInt. destruct (Z.to_int i); simpl; apply noComma_uint.
Qed.

Lemma Split_nonempty str : Split str <> [].
Proof.
  destruct str as [|c str]; simpl; [done|].
  destruct (Ascii.eqb c ","); [done|]. by destruct (Split str).
Qed.

Lemma append_nil_l (str : string) : "" +:+ str = str.
Proof. reflexivity. Qed.

Lemma append_cons_l c (piece str : string) :
  String c piece +:+ str = String c (piece +:+ str).
Proof. reflexivity. Qed.

Lemma Split_cons c (str : string) :
  Split (String c str) =
  if Ascii.eqb c ","%char then EmptyString :: Split str
  else match Split str with
       | piece :: pieces => String c piece :: pieces
       | [] => [String c EmptyString]
       end.
Proof. reflexivity. Qed.

Lemma Split_prepend (piece rest : string) :
  noComma piece = true ->
  Split (piece +:+ rest) =
  match Split rest with
  | first :: pieces => (piece +:+ first) :: pieces
  | [] => [piece]
  end.
Proof.
  induction piece as [|c piece IH].
  - intros _. rewrite append_nil_l.
    destruct (Split rest) eqn:E; [by destruct (Split_nonempty rest)|done].
  - intros Hc. simpl in Hc. apply andb_prop in Hc as [Hc Hp].
    rewrite append_cons_l, Split_cons.
    destruct (Ascii.eqb c ","); [done|]. rewrite (IH Hp).
    destruct (Split rest) eqn:E; [by destruct (Split_nonempty rest)|].
    by rewrite append_cons_l.
Qed.

Lemma append_empty (str : string) : str +:+ "" = str.
Proof.
  induction str as [|c str IH]; [done|]. by rewrite append_cons_l, IH.
Qed.

Lemma Join_cons (e e' : string) (rest : list string) sep :
  Join (e :: e' :: rest) sep = e +:+ sep +:+ Join (e' :: rest) sep.
Proof. reflexivity. Qed.

Lemma Split_Join (pieces : list string) :
  pieces <> [] ->
  Forall (fun piece => noComma piece = true) pieces ->
  Split (Join pieces ",") = pieces.
Proof.
  intros Hne Hall. induction Hall as [|e l He Hl IH]; [done|].
  destruct l as [|e' l].
  - simpl Join. rewrite <- (append_empty e) at 1.
    rewrite (Split_prepend e "" He). simpl. by rewrite append_empty.
  - rewrite Join_cons, (Split_prepend e _ He).
    change (Split ("," +:+ Join (e' :: l) ","))
      with ("" :: Split (Join (e' :: l) ","))%string.
    rewrite IH by done. by rewrite append_empty.
Qed.

(** The path of a batched request carries its batch: after the fixed
    prefix come the identifiers in decimal, between commas, from which they
    are read back; so two batches with the same path are the same batch. *)
Theorem dbTablePath_carries_batch (ids ids' : list Z) :
  ids <> [] ->
  (exists joined,
     dbTablePath (map FormatInt ids) = "/db-table?table_ids=" +:+ joined /\
     Split joined = map FormatInt ids) /\
  (ids' <> [] ->
   dbTablePath (map FormatInt ids) = dbTablePath (map FormatInt ids') ->
   ids = ids').
Proof.
  intros Hne.
  assert (forall l : list Z, l <> [] ->
            Split (Join (map FormatInt l) ",") = map FormatInt l) as Hrt.
  { intros l Hl. apply Split_Join; [by destruct l|].
    apply Forall_forall. intros x Hx. apply list_elem_of_In in Hx.
    apply in_map_iff in Hx as (i & <- & _). apply FormatInt_noComma. }
  split.
  - exists (Join (map FormatInt ids) ","). split; [reflexivity|by apply Hrt].
  - intros Hne' Hp. unfold dbTablePath in Hp.
    assert (Join (map FormatInt ids) "," = Join (map FormatInt ids') ",") as Hj.
    { revert Hp. generalize (Join (map FormatInt ids) ",")
                            (Join (map FormatInt ids') ",").
      intros a b Hab. simpl in Hab. by injection Hab. }
    assert (map FormatInt ids = map FormatInt ids') as Hm
      by (by rewrite <- (Hrt ids Hne), <- (Hrt ids' Hne'), Hj).
    clear -Hm. revert ids' Hm.
    induction ids as [|i ids IH]; intros [|i' ids'] Hm; try done.
    simpl in Hm. injection Hm as Hi Hm.
    by rewrite (FormatInt_inj _ _ Hi), (IH _ Hm).
Qed.

End PathFacts.

Section AnswerFacts.
Context {W : Type} `{Cluster W}.
Implicit Types (s : System W) (evs : list Event).






(** A cycle that has seen a changed version and has not committed it is
    tried again: if etcd still returns that version, the next cycle passes
    the version check and calls the provider or sends a request. *)
Theorem uncommitted_cycle_retries s schemaVersion :
  fetchedVersion s = Some schemaVersion ->
  SchemaVersion (strategy (final (updateMap s))) <> schemaVersion ->
  fetchedVersion (final (updateMap s)) = Some schemaVersion ->
  SchemaVersion (strategy (final (updateMap s))) = SchemaVersion (strategy s) /\
  exists next rest,
    events (updateMap (final (updateMap s))) =
      EvEtcdGet schemaVersionPath :: next :: rest /\
    (isProviderCall next || isRequest next = true).
Proof.
  intros Hv Hnc Hv'.
  assert (SchemaVersion (strategy (final (updateMap s))) =
          SchemaVersion (strategy s)) as Hsame.
  { destruct (updateMap_spec s) as (_ & _ & _ & V). rewrite Hv in V.
    destruct (_ || _); [by rewrite V in Hnc|exact V]. }
  split; [exact Hsame|].
  set (s' := final (updateMap s)) in *.
  rewrite (updateMap_run s'). cbv zeta. rewrite Hv'.
  destruct (Z.eqb_spec schemaVersion (SchemaVersion (strategy s'))) as [E|_];
    [by rewrite E in Hnc|].
  set (s0 := mkSystem (strategy s') (EtcdClient_Get schemaVersionPath (world s')).2).
  assert (forall s1, exists e rest,
            events (fullScan schemaVersion s1) = e :: rest /\
            isProviderCall e || isRequest e = true) as Hfs.
  { intros s1.
    destruct (fullScan_spec schemaVersion s1)
      as (_ & _ & _ & _ & _ & _ & _ & raw & err & rest & ->).
    by exists (EvRequest "/schema" raw err), rest. }
  rewrite batchAttempt_run.
  destruct (getTableIDs (strategy s0)) as [provider|]; autorewrite with run.
  2: { destruct (Hfs s0) as (e & rest & -> & He). by exists e, rest. }
  destruct (dbTableInfosEndpointNotFound (strategy s0)); autorewrite with run.
  { destruct (Hfs s0) as (e & rest & -> & He). by exists e, rest. }
  cbv zeta. destruct (Nat.eqb _ 0); autorewrite with run.
  { by exists EvGetTableIDs, []. }
  destruct (value (requestBatches _ _)); autorewrite with run.
  - by eexists EvGetTableIDs, _.
  - by eexists EvGetTableIDs, _.
Qed.

End AnswerFacts.

Lemma dbTablePath_carries_batch_witness :
  dbTablePath (map FormatInt [7; 12; -3]) = "/db-table?table_ids=7,12,-3"%string /\
  Split "7,12,-3" = map FormatInt [7; 12; -3].
Proof.
  destruct (proj1 (dbTablePath_carries_batch [7; 12; -3] []
                     ltac:(discriminate))) as (joined & Hp & Hs).
  split; [reflexivity|].
  vm_compute in Hp. injection Hp as <-. exact Hs.
Defined.

Lemma uncommitted_cycle_retries_witness :
  let once := @updateMap nat Demo.partialCluster Demo.firstBare in
  SchemaVersion (strategy (final once)) = -1 /\
  exists next rest,
    events (@updateMap nat Demo.partialCluster (final once)) =
      EvEtcdGet schemaVersionPath :: next :: rest /\
    (isProviderCall next || isRequest next = true).
Proof.
  cbv zeta.
  apply (@uncommitted_cycle_retries nat Demo.partialCluster Demo.firstBare 7).
  - vm_compute. reflexivity.
  - vm_compute. discriminate.
  - vm_compute. reflexivity.
Defined.
